(** * nemesis.event_generation.detector

    A shallow embedding of [detector.py]: detector modules, the [Detector]
    container with its derived bounding measures, the geometry builders
    [make_line] and [make_triang], the cylinder and direction samplers, the
    noise generator and the multiplicity trigger.

    Conventions of the embedding.
    - Python and numpy floating-point numbers are read as real numbers
      ([R]); rounding is not modelled, so geometric statements are the exact
      ones that the floating-point code approximates.
    - numpy's [RandomState] is an abstract generator state threaded through
      every sampling call; its draws are constrained only by the documented
      contracts of numpy (ranges of [uniform] and [randint], [poisson] at
      rate zero, non-negative [standard_gamma]).
    - Exceptions are values of [exn]; code that can raise lives in the
      [Py] monad (generator state plus exceptions). *)

From Stdlib Require Import String.
From Stdlib Require Import Reals Lra Lia List ZArith Bool Arith.
From Stdlib Require Import Sorted Permutation.
Import ListNotations.

Open Scope R_scope.

(** ** Exceptions and results *)

Inductive exn : Type :=
| ValueError (msg : string)
| ZeroDivisionError (msg : string).

Inductive result (A : Type) : Type :=
| Ok (a : A)
| Raise (e : exn).

Arguments Ok {A} a.
Arguments Raise {A} e.

Definition result_bind {A B} (r : result A) (k : A -> result B) : result B :=
  match r with
  | Ok a => k a
  | Raise e => Raise e
  end.

Declare Scope result_scope.
Delimit Scope result_scope with result.
Notation "x <- r ;; k" := (result_bind r (fun x => k))
  (at level 61, r at next level, right associativity) : result_scope.

(** ** Small numeric helpers *)

Definition Rltb (x y : R) : bool := if Rlt_dec x y then true else false.

Definition Rsq (x : R) : R := x * x.

(** A row of an N x 3 coordinate array. *)
Record Vec3 : Type := mkVec3 { vx : R; vy : R; vz : R }.

Definition set_x (v : R) (p : Vec3) : Vec3 := mkVec3 v (vy p) (vz p).
Definition set_y (v : R) (p : Vec3) : Vec3 := mkVec3 (vx p) v (vz p).
Definition set_z (v : R) (p : Vec3) : Vec3 := mkVec3 (vx p) (vy p) v.

(** [np.linalg.norm(row)] and [np.linalg.norm(row[:2])]. *)
Definition norm3 (p : Vec3) : R := sqrt (Rsq (vx p) + Rsq (vy p) + Rsq (vz p)).
Definition norm2 (p : Vec3) : R := sqrt (Rsq (vx p) + Rsq (vy p)).

(** [np.vstack] of a list of rows: numpy refuses an empty list. *)
Definition np_vstack (rows : list Vec3) : result (list Vec3) :=
  match rows with
  | [] => Raise (ValueError "need at least one array to concatenate")
  | _ :: _ => Ok rows
  end.

(** [a.max()] of a one-dimensional array: undefined on a zero-size array. *)
Definition np_max (a : list R) : result R :=
  match a with
  | [] => Raise (ValueError
            "zero-size array to reduction operation maximum which has no identity")
  | x :: xs => Ok (fold_left Rmax xs x)
  end.

(** ** Module and Detector *)

(** The class [Module] of the source ([Module] is a reserved word here). *)
Record DetModule : Type := mkModule {
  pos : Vec3;
  key : Z * Z;
  noise_rate : R;
  efficiency : R
}.

Record Detector : Type := mkDetector {
  modules : list DetModule;
  module_coords : list Vec3;
  module_coords_ak : list Vec3;
  module_efficiencies : list R;
  module_noise_rates : list R;
  _outer_radius : R;
  _outer_cylinder : R * R;
  _n_modules : nat
}.

Definition n_modules (d : Detector) : nat := _n_modules d.
Definition outer_radius (d : Detector) : R := _outer_radius d.
Definition outer_cylinder (d : Detector) : R * R := _outer_cylinder d.

(** [Detector.__init__]. *)
Definition Detector_init (mods : list DetModule) : result Detector :=
  (coords <- np_vstack (map pos mods) ;;
   let effs := map efficiency mods in
   let rates := map noise_rate mods in
   radius <- np_max (map norm3 coords) ;;
   cyl_radius <- np_max (map norm2 coords) ;;
   z_max <- np_max (map vz coords) ;;
   Ok (mkDetector mods coords coords effs rates
         radius (cyl_radius, 2 * Rabs z_max) (length mods)))%result.

(** ** Trigger *)

(** [ak.count(a, axis=1)]: the number of entries of every inner list. *)
Definition ak_count_axis1 (a : list (list R)) : list Z :=
  map (fun hits => Z.of_nat (length hits)) a.

(** [ak.sum] of a boolean array: the number of [True] entries. *)
Definition ak_sum_bool (a : list bool) : Z :=
  fold_right (fun (b : bool) (acc : Z) => ((if b then 1 else 0) + acc)%Z) 0%Z a.

Definition trigger (det : Detector) (event_times : list (list R))
    (mod_thresh phot_thres : Z) : bool :=
  let hits_per_module := ak_count_axis1 event_times in
  if (ak_sum_bool (map (fun h => (h >? phot_thres)%Z) hits_per_module)
        >? mod_thresh)%Z
  then true
  else false.

(** The number of modules that recorded strictly more than [phot_thres]
    hit times, as the specification words it. *)
Definition qualifying_modules (event_times : list (list R)) (phot_thres : Z) : nat :=
  length (filter (fun hits => (phot_thres <? Z.of_nat (length hits))%Z) event_times).

(** The synthetic events of the specification: [k] modules with six hits
    each, followed by [10 - k] modules without any hit. *)
Definition synthetic_event (k : nat) : list (list R) :=
  repeat (repeat 0 6) k ++ repeat [] (10 - k).

(** ** The random source *)

(** The draws of [numpy.random.RandomState] that the module uses, as
    functions from a generator state to a value and the next state:
    [uniform low high], [randint n] (an index below [n]), [poisson lam]
    and [standard_gamma shape]. *)
Class RandomState (G : Type) : Type := {
  uniform : R -> R -> G -> R * G;
  randint : nat -> G -> nat * G;
  poisson : R -> G -> nat * G;
  standard_gamma : R -> G -> R * G
}.

(** What numpy documents about these draws. *)
Class RandomStateLaws (G : Type) `{RandomState G} : Prop := {
  uniform_range : forall low high g,
    low <= high -> low <= fst (uniform low high g) <= high;
  randint_range : forall n g, (0 < n)%nat -> (fst (randint n g) < n)%nat;
  poisson_zero : forall g, fst (poisson 0 g) = 0%nat;
  standard_gamma_nonneg : forall shape g, 0 <= fst (standard_gamma shape g)
}.

(** A deterministic generator over a counter, used to run the model on
    concrete inputs: [uniform] answers the midpoint of its interval,
    [randint n] the counter modulo [n], [poisson lam] zero at rate zero and
    the counter otherwise, [standard_gamma] the counter. *)
#[export] Instance counter_rng : RandomState nat := {
  uniform := fun low high g => ((low + high) / 2, S g);
  randint := fun n g => (g mod n, S g)%nat;
  poisson := fun lam g => (if Req_dec_T lam 0 then 0%nat else g, S g);
  standard_gamma := fun _ g => (INR g, S g)
}.

Section Model.

Context {G : Type} {RS : RandomState G}.

(** Content of freshly allocated, uninitialised array rows ([np.empty]). *)
Variable uninit : nat -> Vec3.

(** *** Computations that draw from the generator and may raise *)

Definition Py (A : Type) : Type := G -> result (A * G).

Definition ret {A} (a : A) : Py A := fun g => Ok (a, g).

Definition bind {A B} (m : Py A) (k : A -> Py B) : Py B :=
  fun g =>
    match m g with
    | Ok (a, g') => k a g'
    | Raise e => Raise e
    end.

Definition raise {A} (e : exn) : Py A := fun _ => Raise e.

Definition draw {A} (d : G -> A * G) : Py A := fun g => Ok (d g).

Definition lift {A} (r : result A) : Py A :=
  fun g =>
    match r with
    | Ok a => Ok (a, g)
    | Raise e => Raise e
    end.

Declare Scope py_scope.
Delimit Scope py_scope with py.
Notation "x <- m ;; k" := (bind m (fun x => k))
  (at level 61, m at next level, right associativity) : py_scope.
Local Open Scope py_scope.

(** [size] successive draws, in order. *)
Fixpoint replicateM {A} (size : nat) (m : Py A) : Py (list A) :=
  match size with
  | O => ret []
  | S k => a <- m ;; rest <- replicateM k m ;; ret (a :: rest)
  end.

(** [rng.uniform(low, high)] and [rng.uniform(low, high, size=size)]. *)
Definition rng_uniform (low high : R) : Py R := draw (uniform low high).

Definition rng_uniform_size (low high : R) (size : nat) : Py (list R) :=
  replicateM size (rng_uniform low high).

(** [rng.choice(a, replace=True, size=size)]: [size] indices below
    [len(a)], then the entries at these indices. *)
Definition rng_choice (a : list R) (size : nat) : Py (list R) :=
  match a with
  | [] => raise (ValueError "'a' cannot be empty unless no samples are taken")
  | _ :: _ =>
      replicateM size (i <- draw (randint (length a)) ;; ret (nth i a 0))
  end.

(** [rng.poisson(lam)]: numpy rejects a negative rate. *)
Definition rng_poisson (lam : R) : Py nat :=
  if Rlt_dec lam 0 then raise (ValueError "lam < 0") else draw (poisson lam).

(** [scipy.stats.gamma.rvs(a, loc, scale, random_state=rng)]: scipy checks
    the shape and the scale, draws a standard gamma variate of shape [a]
    and returns [variate * scale + loc]. *)
Definition scipy_stats_gamma_rvs (a loc scale : R) : Py R :=
  if Rlt_dec 0 a then
    if Rlt_dec 0 scale then
      g <- draw (standard_gamma a) ;; ret (g * scale + loc)
    else raise (ValueError "Domain error in arguments.")
  else raise (ValueError "Domain error in arguments.").

(** Python's [x / y] on its own floats: a zero divisor raises (numpy
    scalars would answer [nan] or [inf] with a warning instead). *)
Definition py_div (x y : R) : Py R :=
  if Req_dec_T y 0 then raise (ZeroDivisionError "float division by zero")
  else ret (x / y).

(** *** Array helpers *)

(** [np.empty((n, 3))]. *)
Definition np_empty (n : nat) : list Vec3 := map uninit (seq 0 n).

(** [mask.sum()] of a boolean array. *)
Definition count_true (mask : list bool) : nat :=
  length (filter (fun b : bool => b) mask).

(** [a[mask]]: the entries of [a] where [mask] is true. *)
Fixpoint select {A} (mask : list bool) (a : list A) : list A :=
  match mask, a with
  | b :: mask', v :: a' => if b then v :: select mask' a' else select mask' a'
  | _, _ => []
  end.

(** Elementwise product of two arrays of the same length. *)
Fixpoint zip_with {A B C} (f : A -> B -> C) (a : list A) (b : list B) : list C :=
  match a, b with
  | x :: a', y :: b' => f x y :: zip_with f a' b'
  | _, _ => []
  end.

(** [samples[:, c] = vals]: the column written by [upd] gets [vals]. *)
Definition set_col (upd : R -> Vec3 -> Vec3) (vals : list R) (samples : list Vec3)
    : list Vec3 :=
  zip_with upd vals samples.

(** Writes [vals], in order, into the rows where [mask] is true. The
    function is total: rows for which the values have run out are left as
    they are, a case that [set_masked] rules out before it calls [scatter]. *)
Fixpoint scatter (upd : R -> Vec3 -> Vec3) (mask : list bool) (vals : list R)
    (samples : list Vec3) : list Vec3 :=
  match mask, samples with
  | true :: mask', p :: samples' =>
      match vals with
      | v :: vals' => upd v p :: scatter upd mask' vals' samples'
      | [] => p :: scatter upd mask' [] samples'
      end
  | false :: mask', p :: samples' => p :: scatter upd mask' vals samples'
  | _, _ => samples
  end.

(** [samples[mask, c] = vals]: numpy refuses the assignment unless there
    are as many values as true entries of the mask. *)
Definition set_masked (upd : R -> Vec3 -> Vec3) (mask : list bool) (vals : list R)
    (samples : list Vec3) : Py (list Vec3) :=
  if (length vals =? count_true mask)%nat then ret (scatter upd mask vals samples)
  else raise (ValueError "NumPy boolean array indexing assignment: shape mismatch").

(** [np.linspace(start, stop, num)] with the default [endpoint=True]. *)
Definition np_linspace (start stop : R) (num : nat) : list R :=
  let div := (num - 1)%nat in
  let delta := stop - start in
  let y := map INR (seq 0 num) in
  let y :=
    if (0 <? div)%nat then
      let step := delta / INR div in
      if Req_dec_T step 0 then map (fun v => v / INR div * delta) y
      else map (fun v => v * step) y
    else map (fun v => v * delta) y in
  let y := map (fun v => v + start) y in
  if (1 <? num)%nat then removelast y ++ [stop] else y.

(** Ascending sort of one list of hit times. *)
Fixpoint insert_sorted (t : R) (ts : list R) : list R :=
  match ts with
  | [] => [t]
  | u :: ts' => if Rle_dec t u then t :: ts else u :: insert_sorted t ts'
  end.

Definition sort_times (ts : list R) : list R := fold_right insert_sorted [] ts.

(** [ak.sort(a)]: every inner list sorted on its own (the last axis). *)
Definition ak_sort (a : list (list R)) : list (list R) := map sort_times a.

(** *** Geometry builders *)

(** The loop of [make_line]: one module per entry of the [linspace],
    numbered by [enumerate] from [i], appended to [mods]. *)
Fixpoint make_line_loop (x y : R) (zs : list R) (i : nat)
    (baseline_noise_rate : R) (line_id : Z) (eff : R)
    (mods : list DetModule) : Py (list DetModule) :=
  match zs with
  | [] => ret mods
  | pos_z :: zs' =>
      let p := mkVec3 x y pos_z in
      g <- scipy_stats_gamma_rvs 1 0.25 1 ;;
      let rate := g * baseline_noise_rate in
      let m := mkModule p (line_id, Z.of_nat i) rate eff in
      make_line_loop x y zs' (S i) baseline_noise_rate line_id eff (mods ++ [m])
  end.

Definition make_line (x y : R) (n_z : nat) (dist_z : R)
    (baseline_noise_rate : R) (line_id : Z) (eff : R) : Py (list DetModule) :=
  make_line_loop x y
    (np_linspace (- dist_z * INR n_z / 2) (dist_z * INR n_z / 2) n_z)
    0 baseline_noise_rate line_id eff [].

Definition make_triang (side_len : R) (oms_per_line : nat) (dist_z : R)
    (dark_noise_rate : R) (eff : R) : Py Detector :=
  let height := sqrt (side_len ^ 2 - (side_len / 2) ^ 2) in
  l0 <- make_line (- side_len / 2) (- height / 3) oms_per_line dist_z
          dark_noise_rate 0 eff ;;
  l1 <- make_line (side_len / 2) (- height / 3) oms_per_line dist_z
          dark_noise_rate 1 eff ;;
  l2 <- make_line 0 (2 / 3 * height) oms_per_line dist_z
          dark_noise_rate 2 eff ;;
  lift (Detector_init (l0 ++ l1 ++ l2)).

(** *** Samplers *)

Definition sample_cylinder_surface (height radius : R) (n : nat) : Py (list Vec3) :=
  let side_area := 2 * PI * radius * height in
  let top_area := 2 * PI * radius ^ 2 in
  ratio <- py_div top_area (top_area + side_area) ;;
  u <- rng_uniform_size 0 1 n ;;
  let is_top := map (fun v => Rltb v ratio) u in
  let n_is_top := count_true is_top in
  let samples := np_empty n in
  theta <- rng_uniform_size 0 (2 * PI) n ;;
  u_r <- rng_uniform_size 0 1 n_is_top ;;
  let r := map (fun v => radius * sqrt v) u_r in
  samples <- set_masked set_x is_top
               (zip_with Rmult r (map sin (select is_top theta))) samples ;;
  samples <- set_masked set_y is_top
               (zip_with Rmult r (map cos (select is_top theta))) samples ;;
  z_top <- rng_choice [- height / 2; height / 2] n_is_top ;;
  samples <- set_masked set_z is_top z_top samples ;;
  let r := radius in
  let not_top := map negb is_top in
  samples <- set_masked set_x not_top
               (map (fun t => r * sin t) (select not_top theta)) samples ;;
  samples <- set_masked set_y not_top
               (map (fun t => r * cos t) (select not_top theta)) samples ;;
  z_side <- rng_uniform_size (- height / 2) (height / 2) (n - n_is_top) ;;
  samples <- set_masked set_z not_top z_side samples ;;
  ret samples.

Definition sample_cylinder_volume (height radius : R) (n : nat) : Py (list Vec3) :=
  theta <- rng_uniform_size 0 (2 * PI) n ;;
  u_r <- rng_uniform_size 0 1 n ;;
  let r := map (fun v => radius * sqrt v) u_r in
  let samples := np_empty n in
  let samples := set_col set_x (zip_with Rmult r (map sin theta)) samples in
  let samples := set_col set_y (zip_with Rmult r (map cos theta)) samples in
  z <- rng_uniform_size (- height / 2) (height / 2) n ;;
  let samples := set_col set_z z samples in
  ret samples.

Definition sample_direction (n_samples : nat) : Py (list Vec3) :=
  cos_theta <- rng_uniform_size (-1) 1 n_samples ;;
  let theta := map acos cos_theta in
  phi <- rng_uniform 0 (2 * PI) ;;
  let samples := np_empty n_samples in
  let samples := set_col set_x (map (fun t => sin t * cos phi) theta) samples in
  let samples := set_col set_y (map (fun t => sin t * sin phi) theta) samples in
  let samples := set_col set_z (map cos theta) samples in
  ret samples.

(** *** Noise *)

(** The loop of [generate_noise] over the modules, appending every
    module's hit times to [all_times_det]. *)
Fixpoint generate_noise_loop (mods : list DetModule) (time_range : R * R) (dT : R)
    (all_times_det : list (list R)) : Py (list (list R)) :=
  match mods with
  | [] => ret all_times_det
  | m :: mods' =>
      noise_amp <- rng_poisson (noise_rate m * dT) ;;
      times_det <- rng_uniform_size (fst time_range) (snd time_range) noise_amp ;;
      generate_noise_loop mods' time_range dT (all_times_det ++ [times_det])
  end.

Definition generate_noise (det : Detector) (time_range : R * R) : Py (list (list R)) :=
  let dT := snd time_range - fst time_range in
  all_times_det <- generate_noise_loop (modules det) time_range dT [] ;;
  ret (ak_sort all_times_det).

(** The Poisson counts drawn by the loop of [generate_noise], one per
    module, from the same generator states as the loop itself. *)
Fixpoint noise_amps (mods : list DetModule) (time_range : R * R) (dT : R)
    (amps : list nat) : Py (list nat) :=
  match mods with
  | [] => ret amps
  | m :: mods' =>
      noise_amp <- rng_poisson (noise_rate m * dT) ;;
      times_det <- rng_uniform_size (fst time_range) (snd time_range) noise_amp ;;
      noise_amps mods' time_range dT (amps ++ [noise_amp])
  end.

(** The standard gamma variates of shape 1 that [n] successive calls of
    [scipy_stats_gamma_rvs] consume from the state [g], and the state they
    leave. *)
Fixpoint gamma_draws (n : nat) (g : G) : list R :=
  match n with
  | O => []
  | S k => fst (standard_gamma 1 g) :: gamma_draws k (snd (standard_gamma 1 g))
  end.

Fixpoint gamma_state (n : nat) (g : G) : G :=
  match n with
  | O => g
  | S k => gamma_state k (snd (standard_gamma 1 g))
  end.

(** The modules that the loop of [make_line] builds from the z-coordinates
    [zs] and the gamma variates [gs], numbered from [i]. *)
Fixpoint line_modules (x y : R) (zs : list R) (i : nat) (gs : list R)
    (baseline_noise_rate : R) (line_id : Z) (eff : R) : list DetModule :=
  match zs, gs with
  | pos_z :: zs', v :: gs' =>
      mkModule (mkVec3 x y pos_z) (line_id, Z.of_nat i)
        ((v * 1 + 0.25) * baseline_noise_rate) eff
      :: line_modules x y zs' (S i) gs' baseline_noise_rate line_id eff
  | _, _ => []
  end.

(** A computation that returns from every generator state, with a result
    satisfying [P]. *)
Definition returns {A} (m : Py A) (P : A -> Prop) : Prop :=
  forall g, exists a g', m g = Ok (a, g') /\ P a.

End Model.

(** The modules that [make_triang] hands to the constructor: three lines
    of [line_modules] over the same z-coordinates, whose gamma variates are
    drawn one line after the other. *)
Definition triang_modules {G : Type} {RS : RandomState G} (side_len : R)
    (oms_per_line : nat) (dist_z dark_noise_rate eff : R) (g : G)
    : list DetModule :=
  let height := sqrt (side_len ^ 2 - (side_len / 2) ^ 2) in
  let zs := np_linspace (- dist_z * INR oms_per_line / 2)
              (dist_z * INR oms_per_line / 2) oms_per_line in
  let g1 := gamma_state oms_per_line g in
  let g2 := gamma_state oms_per_line g1 in
  line_modules (- side_len / 2) (- height / 3) zs 0
    (gamma_draws oms_per_line g) dark_noise_rate 0 eff
  ++ line_modules (side_len / 2) (- height / 3) zs 0
       (gamma_draws oms_per_line g1) dark_noise_rate 1 eff
  ++ line_modules 0 (2 / 3 * height) zs 0
       (gamma_draws oms_per_line g2) dark_noise_rate 2 eff.

(** ** The noise-rate draw as the specification words it *)

(** A gamma variate of shape 1 and scale 0.25 (location 0) obtained from
    the standard variate [g], multiplied by the baseline rate. *)
Definition spec_noise_rate (g baseline_noise_rate : R) : R :=
  (g * 0.25 + 0) * baseline_noise_rate.

(** ** Cylinders *)

(** A point within or on the cylinder of the given height and radius,
    centred at the origin with the z-axis as its axis. *)
Definition in_cylinder (height radius : R) (p : Vec3) : Prop :=
  norm2 p <= radius /\ Rabs (vz p) <= height / 2.

(** A point of the lateral surface, and a point of one of the two caps. *)
Definition on_lateral_surface (height radius : R) (p : Vec3) : Prop :=
  norm2 p = radius /\ Rabs (vz p) <= height / 2.

Definition on_cap (height radius : R) (p : Vec3) : Prop :=
  norm2 p <= radius /\ Rabs (vz p) = height / 2.

(** ** Concrete detectors used to run the model *)

(** Two modules on the z-axis, at z = -10 and z = 1. *)
Definition two_modules : list DetModule :=
  [ mkModule (mkVec3 0 0 (-10)) (0, 0)%Z 1 (1 / 5);
    mkModule (mkVec3 0 0 1) (0, 1)%Z 1 (1 / 5) ].

(** A detector of two modules at z = -1 and z = 1 that record no noise. *)
Definition quiet_modules : list DetModule :=
  [ mkModule (mkVec3 0 0 (-1)) (0, 0)%Z 0 (1 / 5);
    mkModule (mkVec3 0 0 1) (0, 1)%Z 0 (1 / 5) ].

Definition quiet_detector : Detector :=
  mkDetector quiet_modules (map pos quiet_modules) (map pos quiet_modules)
    (map efficiency quiet_modules) (map noise_rate quiet_modules)
    1 (0, 2) 2.

(** * Properties *)

(** ** Trigger *)

Lemma ak_sum_bool_qualifying (event_times : list (list R)) (phot_thres : Z) :
  ak_sum_bool (map (fun h => (h >? phot_thres)%Z) (ak_count_axis1 event_times))
  = Z.of_nat (qualifying_modules event_times phot_thres).
Proof.
  unfold qualifying_modules, ak_count_axis1.
  induction event_times as [|hits rest IH]; [reflexivity|].
  cbn [map ak_sum_bool fold_right filter].
  fold (ak_sum_bool
          (map (fun h => (h >? phot_thres)%Z)
               (map (fun hits0 : list R => Z.of_nat (length hits0)) rest))).
  rewrite IH, Z.gtb_ltb.
  destruct (phot_thres <? Z.of_nat (length hits))%Z; cbn [length]; lia.
Qed.

Lemma trigger_true_iff (det : Detector) (event_times : list (list R))
    (mod_thresh phot_thres : Z) :
  trigger det event_times mod_thresh phot_thres = true
  <-> (mod_thresh < Z.of_nat (qualifying_modules event_times phot_thres))%Z.
Proof.
  unfold trigger. rewrite ak_sum_bool_qualifying, Z.gtb_ltb.
  destruct (Z.ltb_spec mod_thresh
              (Z.of_nat (qualifying_modules event_times phot_thres)));
    split; intros; try reflexivity; try lia; discriminate.
Qed.

Lemma qualifying_synthetic_9 : qualifying_modules (synthetic_event 9) 5 = 9%nat.
Proof. reflexivity. Qed.

Lemma qualifying_synthetic_8 : qualifying_modules (synthetic_event 8) 5 = 8%nat.
Proof. reflexivity. Qed.

(** C1. [trigger] answers true exactly when the number of modules with
    strictly more than [phot_thres] recorded hit times is strictly greater
    than [mod_thresh]; with nine qualifying modules out of ten and
    [mod_thresh = 8] it answers true, with eight it answers false. *)
Theorem trigger_multiplicity :
  (forall det event_times mod_thresh phot_thres,
      trigger det event_times mod_thresh phot_thres = true
      <-> (Z.of_nat (qualifying_modules event_times phot_thres) > mod_thresh)%Z)
  /\ (forall det,
         qualifying_modules (synthetic_event 9) 5 = 9%nat
         /\ trigger det (synthetic_event 9) 8 5 = true)
  /\ (forall det,
         qualifying_modules (synthetic_event 8) 5 = 8%nat
         /\ trigger det (synthetic_event 8) 8 5 = false).
Proof.
  split; [|split].
  - intros. rewrite trigger_true_iff. lia.
  - intros det. split; [exact qualifying_synthetic_9|].
    apply trigger_true_iff. rewrite qualifying_synthetic_9. lia.
  - intros det. split; [exact qualifying_synthetic_8|].
    destruct (trigger det (synthetic_event 8) 8 5) eqn:E; [|reflexivity].
    apply trigger_true_iff in E. rewrite qualifying_synthetic_8 in E. lia.
Qed.

(** C10. The decision of [trigger] does not depend on the detector it is
    given: only the hit times and the two thresholds matter. *)
Theorem trigger_independent_of_det :
  forall d1 d2 event_times mod_thresh phot_thres,
    trigger d1 event_times mod_thresh phot_thres
    = trigger d2 event_times mod_thresh phot_thres.
Proof. intros. reflexivity. Qed.

(** ** Detector *)

Lemma fold_left_Rmax_ge (xs : list R) :
  forall x, x <= fold_left Rmax xs x.
Proof.
  induction xs as [|y ys IH]; intros x; cbn [fold_left]; [lra|].
  eapply Rle_trans; [apply (Rmax_l x y)|apply IH].
Qed.

Lemma fold_left_Rmax_upper (xs : list R) :
  forall x, Forall (fun y => y <= fold_left Rmax xs x) xs.
Proof.
  induction xs as [|y ys IH]; intros x; cbn [fold_left]; constructor.
  - eapply Rle_trans; [apply (Rmax_r x y)|apply fold_left_Rmax_ge].
  - apply IH.
Qed.

Lemma fold_left_Rmax_attained (xs : list R) :
  forall x, In (fold_left Rmax xs x) (x :: xs).
Proof.
  induction xs as [|y ys IH]; intros x; cbn [fold_left]; [left; reflexivity|].
  destruct (IH (Rmax x y)) as [E|I].
  - rewrite <- E. unfold Rmax.
    destruct (Rle_dec x y); [right; left|left]; reflexivity.
  - right; right; exact I.
Qed.

(** The maximum of a non-empty array bounds every entry and is one of them. *)
Lemma np_max_spec (a : list R) (m : R) :
  np_max a = Ok m -> Forall (fun y => y <= m) a /\ In m a.
Proof.
  destruct a as [|x xs]; cbn [np_max]; intros E; [discriminate|].
  injection E as <-. split.
  - constructor; [apply fold_left_Rmax_ge|apply fold_left_Rmax_upper].
  - apply fold_left_Rmax_attained.
Qed.

Lemma Detector_init_nonempty (m : DetModule) (ms : list DetModule) :
  Detector_init (m :: ms)
  = Ok (mkDetector (m :: ms) (map pos (m :: ms)) (map pos (m :: ms))
          (map efficiency (m :: ms)) (map noise_rate (m :: ms))
          (fold_left Rmax (map norm3 (map pos ms)) (norm3 (pos m)))
          (fold_left Rmax (map norm2 (map pos ms)) (norm2 (pos m)),
           2 * Rabs (fold_left Rmax (map vz (map pos ms)) (vz (pos m))))
          (length (m :: ms))).
Proof. reflexivity. Qed.

Lemma Forall_map_iff {A B} (f : A -> B) (P : B -> Prop) (l : list A) :
  Forall P (map f l) <-> Forall (fun a => P (f a)) l.
Proof.
  induction l as [|a l IH]; cbn [map]; split; intros H0;
    try constructor; inversion H0; subst; try tauto.
Qed.

(** C7. For a non-empty module list the constructor succeeds, [n_modules]
    is the length of the list and [outer_radius] is the maximum Euclidean
    norm of the module positions: no module lies farther from the origin,
    and some module lies exactly that far. *)
Theorem Detector_outer_radius_n_modules :
  forall mods : list DetModule,
    mods <> [] ->
    exists d,
      Detector_init mods = Ok d
      /\ modules d = mods
      /\ n_modules d = length mods
      /\ Forall (fun m => norm3 (pos m) <= outer_radius d) mods
      /\ Exists (fun m => norm3 (pos m) = outer_radius d) mods.
Proof.
  intros [|m ms] Hne; [contradiction|].
  eexists. split; [apply Detector_init_nonempty|].
  cbn [modules n_modules outer_radius _n_modules _outer_radius].
  split; [reflexivity|]. split; [reflexivity|].
  destruct (np_max_spec (map norm3 (map pos (m :: ms)))
              (fold_left Rmax (map norm3 (map pos ms)) (norm3 (pos m)))
              eq_refl) as [Hub Hin].
  split.
  - apply Forall_map_iff in Hub. apply Forall_map_iff in Hub. exact Hub.
  - apply in_map_iff in Hin. destruct Hin as [p [E I]].
    apply in_map_iff in I. destruct I as [m' [E' I]]. subst p.
    apply Exists_exists. eauto.
Qed.

Lemma Detector_outer_radius_n_modules_witness :
  exists d,
    Detector_init two_modules = Ok d
    /\ modules d = two_modules
    /\ n_modules d = length two_modules
    /\ Forall (fun m => norm3 (pos m) <= outer_radius d) two_modules
    /\ Exists (fun m => norm3 (pos m) = outer_radius d) two_modules.
Proof.
  apply (Detector_outer_radius_n_modules two_modules).
  unfold two_modules. discriminate.
Defined.

(** [quiet_detector] is the detector that the constructor builds from
    [quiet_modules]. *)
Lemma quiet_detector_built : Detector_init quiet_modules = Ok quiet_detector.
Proof.
  unfold quiet_modules at 1. rewrite Detector_init_nonempty.
  unfold quiet_detector, quiet_modules. cbn [map pos fold_left length].
  unfold norm3, norm2, Rsq. cbn [vx vy vz].
  replace (0 * 0 + 0 * 0 + -1 * -1) with 1 by ring.
  replace (0 * 0 + 0 * 0 + 1 * 1) with 1 by ring.
  replace (0 * 0 + 0 * 0) with 0 by ring.
  rewrite sqrt_1, sqrt_0.
  assert (H11 : Rmax 1 1 = 1) by (unfold Rmax; destruct (Rle_dec 1 1); lra).
  assert (H00 : Rmax 0 0 = 0) by (unfold Rmax; destruct (Rle_dec 0 0); lra).
  assert (Hm1 : Rmax (-1) 1 = 1)
    by (unfold Rmax; destruct (Rle_dec (-1) 1); lra).
  rewrite H11, H00, Hm1, (Rabs_pos_eq 1) by lra.
  replace (2 * 1) with 2 by ring. reflexivity.
Qed.

(** C9. Building a detector from an empty module list raises as soon as
    the positions are stacked: no detector is produced. *)
Theorem Detector_init_empty_raises :
  Detector_init []
  = Raise (ValueError "need at least one array to concatenate")
  /\ forall d, Detector_init [] <> Ok d.
Proof. split; [reflexivity|intros d; discriminate]. Qed.

(** What the outer cylinder does guarantee: its radius is the largest
    horizontal distance of a module from the axis, and no module lies above
    its upper cap. *)
Lemma Detector_outer_cylinder_guarantee :
  forall mods : list DetModule,
    mods <> [] ->
    exists d,
      Detector_init mods = Ok d
      /\ Forall (fun m => norm2 (pos m) <= fst (outer_cylinder d)) mods
      /\ Exists (fun m => norm2 (pos m) = fst (outer_cylinder d)) mods
      /\ Forall (fun m => vz (pos m) <= snd (outer_cylinder d) / 2) mods.
Proof.
  intros [|m ms] Hne; [contradiction|].
  eexists. split; [apply Detector_init_nonempty|].
  cbn [outer_cylinder _outer_cylinder fst snd].
  destruct (np_max_spec (map norm2 (map pos (m :: ms)))
              (fold_left Rmax (map norm2 (map pos ms)) (norm2 (pos m)))
              eq_refl) as [Hub Hin].
  destruct (np_max_spec (map vz (map pos (m :: ms)))
              (fold_left Rmax (map vz (map pos ms)) (vz (pos m)))
              eq_refl) as [Hz _].
  split; [|split].
  - apply Forall_map_iff in Hub. apply Forall_map_iff in Hub. exact Hub.
  - apply in_map_iff in Hin. destruct Hin as [p [E I]].
    apply in_map_iff in I. destruct I as [m' [E' I]]. subst p.
    apply Exists_exists. eauto.
  - apply Forall_map_iff in Hz. apply Forall_map_iff in Hz.
    eapply Forall_impl; [|exact Hz]. cbn beta. intros a Ha.
    pose proof (Rle_abs (fold_left Rmax (map vz (map pos ms)) (vz (pos m)))).
    lra.
Qed.

(** C6, at the detector [two_modules] (modules at z = -10 and z = 1): the
    height of the outer cylinder is twice the absolute value of the largest
    z, here 2, so the module at z = -10 lies below the lower cap
    z = -height/2 = -1 and the cylinder does not contain it. *)
Theorem outer_cylinder_misses_low_module :
  exists d m,
    Detector_init two_modules = Ok d
    /\ In m (modules d)
    /\ snd (outer_cylinder d) = 2
    /\ vz (pos m) = -10
    /\ vz (pos m) < - snd (outer_cylinder d) / 2.
Proof.
  eexists. exists (mkModule (mkVec3 0 0 (-10)) (0, 0)%Z 1 (1 / 5)).
  split; [apply Detector_init_nonempty|].
  cbn [modules outer_cylinder _outer_cylinder snd map pos vz fold_left].
  assert (Hmax : Rmax (-10) 1 = 1)
    by (unfold Rmax; destruct (Rle_dec (-10) 1); lra).
  rewrite Hmax. rewrite (Rabs_pos_eq 1) by lra.
  split; [left; reflexivity|]. repeat split; lra.
Qed.

(** ** The counter generator obeys the laws of the random source *)

Lemma counter_rng_laws : RandomStateLaws nat.
Proof.
  constructor; cbn [uniform randint poisson standard_gamma counter_rng fst].
  - intros low high g Hle. lra.
  - intros n g Hn. apply Nat.mod_upper_bound. lia.
  - intros g. destruct (Req_dec_T 0 0) as [_|Hne]; [reflexivity|].
    exfalso; apply Hne; reflexivity.
  - intros _ g. apply pos_INR.
Qed.

(** ** Reasoning in the [Py] monad *)

Section MonadFacts.

Context {G : Type} {RS : RandomState G}.

Lemma bind_ok {A B} (m : @Py G A) (k : A -> @Py G B) (g g' : G) (a : A) :
  m g = Ok (a, g') -> bind m k g = k a g'.
Proof. unfold bind. intros ->. reflexivity. Qed.

Lemma bind_ret {A B} (a : A) (k : A -> @Py G B) (g : G) :
  bind (ret a) k g = k a g.
Proof. reflexivity. Qed.

Lemma bind_draw {A B} (d : G -> A * G) (k : A -> @Py G B) (g : G) :
  bind (draw d) k g = k (fst (d g)) (snd (d g)).
Proof. unfold bind, draw. destruct (d g); reflexivity. Qed.

Lemma replicateM_returns {A} (m : @Py G A) (P : A -> Prop) :
  returns m P ->
  forall size,
    returns (replicateM size m) (fun l => length l = size /\ Forall P l).
Proof.
  intros Hm size. induction size as [|k IH]; intros g.
  - exists [], g. cbn. auto.
  - destruct (Hm g) as [a [g1 [E1 Pa]]].
    destruct (IH g1) as [l [g2 [E2 [Hlen Hall]]]].
    exists (a :: l), g2. cbn [replicateM].
    rewrite (bind_ok _ _ _ _ _ E1), (bind_ok _ _ _ _ _ E2).
    cbn. auto.
Qed.

Lemma rng_uniform_size_returns `{!RandomStateLaws G} (low high : R) (size : nat) :
  low <= high ->
  returns (rng_uniform_size low high size)
    (fun l => length l = size /\ Forall (fun v => low <= v <= high) l).
Proof.
  intros Hle. unfold rng_uniform_size. apply replicateM_returns.
  intros g. exists (fst (uniform low high g)), (snd (uniform low high g)).
  split.
  - unfold rng_uniform, draw. destruct (uniform low high g); reflexivity.
  - apply uniform_range. exact Hle.
Qed.

(** Without any assumption on the draws, [rng_uniform_size] still returns
    [size] values. *)
Lemma rng_uniform_size_length (low high : R) (size : nat) :
  returns (rng_uniform_size low high size) (fun l => length l = size).
Proof.
  assert (Hdraw : returns (rng_uniform low high) (fun _ => True)).
  { intros g0. exists (fst (uniform low high g0)), (snd (uniform low high g0)).
    split; [|exact I].
    unfold rng_uniform, draw. destruct (uniform low high g0); reflexivity. }
  intros g.
  destruct (replicateM_returns _ _ Hdraw size g) as [l [g' [E [Hlen _]]]].
  exists l, g'. auto.
Qed.

Lemma rng_choice_returns `{!RandomStateLaws G} (a : list R) (size : nat) :
  a <> [] ->
  returns (rng_choice a size)
    (fun l => length l = size /\ Forall (fun v => In v a) l).
Proof.
  intros Hne. destruct a as [|a0 a']; [contradiction|].
  unfold rng_choice. apply replicateM_returns. intros g.
  rewrite bind_draw. do 2 eexists. split; [reflexivity|].
  apply nth_In. apply randint_range. cbn; lia.
Qed.

Lemma scipy_stats_gamma_rvs_make_line (g : G) :
  scipy_stats_gamma_rvs 1 0.25 1 g
  = Ok (fst (standard_gamma 1 g) * 1 + 0.25, snd (standard_gamma 1 g)).
Proof.
  unfold scipy_stats_gamma_rvs.
  destruct (Rlt_dec 0 1) as [_|H]; [|lra].
  rewrite bind_draw. reflexivity.
Qed.

End MonadFacts.

(** ** make_line *)

Lemma removelast_app_singleton {A} (l : list A) (a b : A) :
  removelast (l ++ [a]) ++ [b] = l ++ [b].
Proof. rewrite removelast_last. reflexivity. Qed.

(** For two points or more, [np_linspace] is the affine interpolation
    [start + i * (stop - start) / (num - 1)], whose last value is [stop]. *)
Lemma np_linspace_affine (start stop : R) (num : nat) :
  (2 <= num)%nat ->
  np_linspace start stop num
  = map (fun i => INR i * ((stop - start) / INR (num - 1)) + start) (seq 0 num).
Proof.
  intros Hnum. unfold np_linspace.
  destruct num as [|[|k]]; try lia.
  replace (S (S k) - 1)%nat with (S k) by lia.
  assert (Hk : INR (S k) <> 0) by (apply not_0_INR; lia).
  replace (0 <? S k)%nat with true by (symmetry; apply Nat.ltb_lt; lia).
  replace (1 <? S (S k))%nat with true by (symmetry; apply Nat.ltb_lt; lia).
  set (f := fun i : nat => INR i * ((stop - start) / INR (S k)) + start).
  assert (Hy : map (fun v => v + start)
                 (if Req_dec_T ((stop - start) / INR (S k)) 0
                  then map (fun v => v / INR (S k) * (stop - start))
                         (map INR (seq 0 (S (S k))))
                  else map (fun v => v * ((stop - start) / INR (S k)))
                         (map INR (seq 0 (S (S k)))))
               = map f (seq 0 (S (S k)))).
  { destruct (Req_dec_T ((stop - start) / INR (S k)) 0);
      rewrite !map_map; apply map_ext; intros i; unfold f; field; exact Hk. }
  rewrite Hy. rewrite (seq_S (S k) 0), map_app. cbn [map Nat.add].
  rewrite removelast_app_singleton. f_equal. f_equal.
  unfold f. field. exact Hk.
Qed.

Lemma np_linspace_length (start stop : R) (num : nat) :
  length (np_linspace start stop num) = num.
Proof.
  destruct (le_lt_dec 2 num) as [H2|H2].
  - rewrite np_linspace_affine by exact H2. rewrite length_map, length_seq.
    reflexivity.
  - unfold np_linspace.
    replace (0 <? num - 1)%nat with false by (symmetry; apply Nat.ltb_ge; lia).
    replace (1 <? num)%nat with false by (symmetry; apply Nat.ltb_ge; lia).
    rewrite !length_map, length_seq. reflexivity.
Qed.

Section MakeLine.

Context {G : Type} {RS : RandomState G}.

(** The loop of [make_line] never raises: it appends [line_modules], built
    from the gamma variates drawn in order. *)
Lemma make_line_loop_spec (x y : R) (zs : list R) :
  forall (i : nat) (b : R) (line_id : Z) (eff : R) (mods : list DetModule) (g : G),
    make_line_loop x y zs i b line_id eff mods g
    = Ok (mods ++ line_modules x y zs i (gamma_draws (length zs) g) b line_id eff,
          gamma_state (length zs) g).
Proof.
  induction zs as [|z zs IH]; intros i b line_id eff mods g.
  - cbn. rewrite app_nil_r. reflexivity.
  - cbn [make_line_loop length gamma_draws gamma_state line_modules].
    rewrite (bind_ok _ _ _ _ _ (scipy_stats_gamma_rvs_make_line g)).
    rewrite IH, <- app_assoc. reflexivity.
Qed.

Lemma make_line_spec (x y : R) (n_z : nat) (dist_z b : R) (line_id : Z) (eff : R)
    (g : G) :
  make_line x y n_z dist_z b line_id eff g
  = Ok (line_modules x y
          (np_linspace (- dist_z * INR n_z / 2) (dist_z * INR n_z / 2) n_z)
          0 (gamma_draws n_z g) b line_id eff,
        gamma_state n_z g).
Proof.
  unfold make_line. rewrite make_line_loop_spec, np_linspace_length.
  reflexivity.
Qed.

Lemma gamma_draws_length (n : nat) : forall g : G, length (gamma_draws n g) = n.
Proof. induction n as [|k IH]; intros g; cbn; [|rewrite IH]; reflexivity. Qed.

Lemma line_modules_nth (x y : R) (zs : list R) :
  forall (i : nat) (gs : list R) (b : R) (line_id : Z) (eff : R) (k : nat),
    length gs = length zs ->
    (k < length zs)%nat ->
    nth_error (line_modules x y zs i gs b line_id eff) k
    = Some (mkModule (mkVec3 x y (nth k zs 0)) (line_id, Z.of_nat (i + k))
              ((nth k gs 0 * 1 + 0.25) * b) eff).
Proof.
  induction zs as [|z zs IH]; intros i gs b line_id eff k Hlen Hk;
    cbn [length] in *; [lia|].
  destruct gs as [|v gs]; cbn [length] in Hlen; [discriminate|].
  cbn [line_modules]. destruct k as [|k]; cbn [nth_error nth].
  - rewrite Nat.add_0_r. reflexivity.
  - rewrite IH by lia.
    replace (S i + k)%nat with (i + S k)%nat by lia. reflexivity.
Qed.

Lemma line_modules_length (x y : R) (zs : list R) :
  forall (i : nat) (gs : list R) (b : R) (line_id : Z) (eff : R),
    length gs = length zs ->
    length (line_modules x y zs i gs b line_id eff) = length zs.
Proof.
  induction zs as [|z zs IH]; intros i gs b line_id eff Hlen; [reflexivity|].
  destruct gs as [|v gs]; cbn [length] in Hlen; [discriminate|].
  cbn [line_modules length]. rewrite IH by lia. reflexivity.
Qed.

End MakeLine.

Lemma nth_map_seq {A} (f : nat -> A) (n k : nat) (d : A) :
  (k < n)%nat -> nth k (map f (seq 0 n)) d = f k.
Proof.
  intros Hk.
  rewrite (nth_indep _ d (f 0%nat)) by (rewrite length_map, length_seq; exact Hk).
  rewrite map_nth, seq_nth by exact Hk. reflexivity.
Qed.

(** The z-coordinate of module [i] of a line of [n_z] modules. *)
Lemma make_line_z (dist_z : R) (n_z i : nat) :
  (2 <= n_z)%nat -> (i < n_z)%nat ->
  nth i (np_linspace (- dist_z * INR n_z / 2) (dist_z * INR n_z / 2) n_z) 0
  = - dist_z * INR n_z / 2 + INR i * (dist_z * INR n_z / (INR n_z - 1)).
Proof.
  intros Hn Hi. rewrite np_linspace_affine by exact Hn.
  rewrite nth_map_seq by exact Hi.
  rewrite minus_INR by lia. cbn [INR].
  assert (Hpos : INR n_z - 1 <> 0).
  { assert (H2 : INR 2 <= INR n_z) by (apply le_INR; exact Hn).
    cbn [INR] in H2. lra. }
  field. exact Hpos.
Qed.

(** C4. For a positive spacing and at least two modules, [make_line]
    returns exactly [n_z] modules; module [i] sits at the given (x, y), at
    height [-dist_z*n_z/2 + i * dist_z*n_z/(n_z-1)], and carries the key
    [(line_id, i)]; consecutive heights increase strictly, by
    [dist_z*n_z/(n_z-1)]; the first height is [-dist_z*n_z/2] and the last
    is [+dist_z*n_z/2]. *)
Theorem make_line_geometry :
  forall (G : Type) (RS : RandomState G) (x y dist_z b eff : R) (n_z : nat)
         (line_id : Z) (g : G),
    0 < dist_z -> (2 <= n_z)%nat ->
    exists mods g',
      make_line x y n_z dist_z b line_id eff g = Ok (mods, g')
      /\ length mods = n_z
      /\ (forall i, (i < n_z)%nat ->
            exists m, nth_error mods i = Some m
              /\ vx (pos m) = x /\ vy (pos m) = y
              /\ vz (pos m)
                 = - dist_z * INR n_z / 2
                   + INR i * (dist_z * INR n_z / (INR n_z - 1))
              /\ key m = (line_id, Z.of_nat i))
      /\ (forall i m m', (S i < n_z)%nat ->
            nth_error mods i = Some m -> nth_error mods (S i) = Some m' ->
            vz (pos m) < vz (pos m')
            /\ vz (pos m') - vz (pos m) = dist_z * INR n_z / (INR n_z - 1))
      /\ (exists m_first m_last,
            nth_error mods 0 = Some m_first
            /\ nth_error mods (n_z - 1) = Some m_last
            /\ vz (pos m_first) = - dist_z * INR n_z / 2
            /\ vz (pos m_last) = dist_z * INR n_z / 2).
Proof.
  intros G RS x y dist_z b eff n_z line_id g Hd Hn.
  set (zs := np_linspace (- dist_z * INR n_z / 2) (dist_z * INR n_z / 2) n_z).
  assert (Hzs : length zs = n_z) by apply np_linspace_length.
  assert (Hgs : length (gamma_draws n_z g) = length zs)
    by (rewrite gamma_draws_length, Hzs; reflexivity).
  assert (H2 : 2 <= INR n_z).
  { replace 2 with (INR 2) by (cbn [INR]; lra). apply le_INR. exact Hn. }
  assert (Hstep : 0 < dist_z * INR n_z / (INR n_z - 1)).
  { apply Rdiv_lt_0_compat; nra. }
  assert (Hnth : forall i, (i < n_z)%nat ->
            nth_error (line_modules x y zs 0 (gamma_draws n_z g) b line_id eff) i
            = Some (mkModule
                      (mkVec3 x y
                         (- dist_z * INR n_z / 2
                          + INR i * (dist_z * INR n_z / (INR n_z - 1))))
                      (line_id, Z.of_nat i)
                      ((nth i (gamma_draws n_z g) 0 * 1 + 0.25) * b) eff)).
  { intros i Hi.
    rewrite (line_modules_nth x y zs 0 _ b line_id eff i Hgs)
      by (rewrite Hzs; exact Hi).
    unfold zs. rewrite make_line_z by assumption. reflexivity. }
  do 2 eexists. split; [apply make_line_spec|]. fold zs.
  split; [rewrite line_modules_length by exact Hgs; exact Hzs|].
  split; [|split].
  - intros i Hi. eexists. split; [apply Hnth; exact Hi|].
    cbn [pos key vx vy vz]. auto.
  - intros i m m' Hi Hm Hm'.
    rewrite Hnth in Hm by lia. rewrite Hnth in Hm' by lia.
    rewrite S_INR in Hm'.
    apply (f_equal (option_map (fun a => vz (pos a)))) in Hm, Hm'.
    cbn [option_map pos vz] in Hm, Hm'.
    injection Hm as <-. injection Hm' as <-. split; lra.
  - do 2 eexists.
    split; [apply Hnth; lia|]. split; [apply Hnth; lia|].
    cbn [pos vz INR]. split; [lra|].
    rewrite minus_INR by lia. cbn [INR]. field. lra.
Qed.

Lemma make_line_geometry_witness :
  exists mods g',
    make_line 1 2 3 50 (1 / 10) 0 (1 / 5) 0%nat = Ok (mods, g')
    /\ length mods = 3%nat
    /\ (forall i, (i < 3)%nat ->
          exists m, nth_error mods i = Some m
            /\ vx (pos m) = 1 /\ vy (pos m) = 2
            /\ vz (pos m) = - 50 * INR 3 / 2 + INR i * (50 * INR 3 / (INR 3 - 1))
            /\ key m = (0%Z, Z.of_nat i))
    /\ (forall i m m', (S i < 3)%nat ->
          nth_error mods i = Some m -> nth_error mods (S i) = Some m' ->
          vz (pos m) < vz (pos m')
          /\ vz (pos m') - vz (pos m) = 50 * INR 3 / (INR 3 - 1))
    /\ (exists m_first m_last,
          nth_error mods 0 = Some m_first
          /\ nth_error mods (3 - 1) = Some m_last
          /\ vz (pos m_first) = - 50 * INR 3 / 2
          /\ vz (pos m_last) = 50 * INR 3 / 2).
Proof.
  apply (make_line_geometry nat counter_rng 1 2 50 (1 / 10) (1 / 5) 3 0%Z 0%nat).
  - lra.
  - lia.
Defined.

(** ** Noise rate of a module *)

Lemma line_modules_noise_rate (x y : R) (zs : list R) :
  forall (i : nat) (gs : list R) (b : R) (line_id : Z) (eff : R),
    length gs = length zs ->
    map noise_rate (line_modules x y zs i gs b line_id eff)
    = map (fun v => (v * 1 + 0.25) * b) gs.
Proof.
  induction zs as [|z zs IH]; intros i gs b line_id eff Hlen;
    destruct gs as [|v gs]; cbn [length] in Hlen; try discriminate;
    [reflexivity|].
  cbn [line_modules map noise_rate]. rewrite IH by lia. reflexivity.
Qed.

Lemma gamma_draws_nonneg {G : Type} {RS : RandomState G} `{!RandomStateLaws G}
    (n : nat) :
  forall g : G, Forall (fun v => 0 <= v) (gamma_draws n g).
Proof.
  induction n as [|k IH]; intros g; cbn [gamma_draws]; constructor.
  - apply standard_gamma_nonneg.
  - apply IH.
Qed.

(** C5, as the code has it. [make_line] draws one standard gamma variate
    of shape 1 per module, in order, and sets the module's noise rate to
    [(variate * 1 + 0.25) * baseline_noise_rate]: location 0.25 and scale 1.
    For a non-negative baseline no rate is below
    [0.25 * baseline_noise_rate]. *)
Theorem make_line_noise_rate :
  forall (G : Type) (RS : RandomState G) (L : RandomStateLaws G)
         (x y dist_z b eff : R) (n_z : nat) (line_id : Z) (g : G),
    exists mods g',
      make_line x y n_z dist_z b line_id eff g = Ok (mods, g')
      /\ map noise_rate mods
         = map (fun v => (v * 1 + 0.25) * b) (gamma_draws n_z g)
      /\ Forall (fun v => 0 <= v) (gamma_draws n_z g)
      /\ (0 <= b -> Forall (fun m => 0.25 * b <= noise_rate m) mods).
Proof.
  intros G RS L x y dist_z b eff n_z line_id g.
  assert (Hgs : length (gamma_draws n_z g)
                = length (np_linspace (- dist_z * INR n_z / 2)
                            (dist_z * INR n_z / 2) n_z))
    by (rewrite gamma_draws_length, np_linspace_length; reflexivity).
  pose proof (gamma_draws_nonneg n_z g) as Hpos.
  do 2 eexists. split; [apply make_line_spec|].
  split; [apply line_modules_noise_rate; exact Hgs|].
  split; [exact Hpos|].
  intros Hb. apply Forall_map_iff.
  rewrite line_modules_noise_rate by exact Hgs.
  apply Forall_map_iff. eapply Forall_impl; [|exact Hpos].
  cbn beta. intros v Hv. nra.
Qed.

Lemma make_line_noise_rate_witness :
  exists mods g',
    make_line 1 2 3 50 (1 / 10) 0 (1 / 5) 0%nat = Ok (mods, g')
    /\ map noise_rate mods
       = map (fun v => (v * 1 + 0.25) * (1 / 10)) (gamma_draws 3 0%nat)
    /\ Forall (fun v => 0 <= v) (gamma_draws 3 0%nat)
    /\ (0 <= 1 / 10 -> Forall (fun m => 0.25 * (1 / 10) <= noise_rate m) mods).
Proof.
  exact (make_line_noise_rate nat counter_rng counter_rng_laws
           1 2 50 (1 / 10) (1 / 5) 3 0%Z 0%nat).
Defined.

(** C5, as the specification words it, fails: on the counter generator
    the first standard gamma variate is 0, the specification's rate
    (scale 0.25, location 0) would be 0, and the code's rate is 0.25. *)
Lemma make_line_noise_rate_not_scaled :
  exists mods g',
    make_line 0 0 1 1 1 0 (1 / 5) 0%nat = Ok (mods, g')
    /\ gamma_draws 1 0%nat = [0]
    /\ map noise_rate mods = [0.25]
    /\ map (fun v => spec_noise_rate v 1) (gamma_draws 1 0%nat) = [0]
    /\ map noise_rate mods
       <> map (fun v => spec_noise_rate v 1) (gamma_draws 1 0%nat).
Proof.
  do 2 eexists. split; [apply make_line_spec|].
  rewrite line_modules_noise_rate
    by (rewrite gamma_draws_length, np_linspace_length; reflexivity).
  cbn [gamma_draws standard_gamma counter_rng fst snd INR map].
  unfold spec_noise_rate.
  split; [reflexivity|]. split; [f_equal; lra|]. split; [f_equal; lra|].
  intros E. injection E as E. lra.
Qed.

(** ** Full-column assignments *)

Lemma np_empty_length (uninit : nat -> Vec3) (n : nat) :
  length (np_empty uninit n) = n.
Proof. unfold np_empty. rewrite length_map, length_seq. reflexivity. Qed.

(** Writing the three columns of an array overwrites every row, whatever
    the array held before. *)
Lemma set_col_xyz_map {T} (fx fy fz : T -> R) (ts : list T) :
  forall samples : list Vec3,
    length samples = length ts ->
    set_col set_z (map fz ts)
      (set_col set_y (map fy ts) (set_col set_x (map fx ts) samples))
    = map (fun t => mkVec3 (fx t) (fy t) (fz t)) ts.
Proof.
  unfold set_col.
  induction ts as [|t ts IH]; intros [|p samples] Hlen;
    cbn [length] in Hlen; try discriminate; [reflexivity|].
  cbn [map zip_with]. rewrite IH by lia. reflexivity.
Qed.

(** ** sample_direction *)

Lemma spherical_unit (theta phi : R) :
  Rsq (sin theta * cos phi) + Rsq (sin theta * sin phi) + Rsq (cos theta) = 1.
Proof.
  unfold Rsq.
  pose proof (sin2_cos2 theta) as Ht. pose proof (sin2_cos2 phi) as Hp.
  unfold Rsqr in Ht, Hp. nra.
Qed.

Lemma spherical_norm3 (theta phi : R) :
  norm3 (mkVec3 (sin theta * cos phi) (sin theta * sin phi) (cos theta)) = 1.
Proof.
  unfold norm3. cbn [vx vy vz]. rewrite spherical_unit. apply sqrt_1.
Qed.

(** C3. [sample_direction] returns [n_samples] vectors
    [(sin t cos phi, sin t sin phi, cos t)] with [t = acos c], where the
    [c] are the [n_samples] draws of [uniform(-1, 1)] (so [cos t = c]) and
    [phi] is the single draw of [uniform(0, 2 pi)] that follows them: every
    vector has norm 1 and all share the azimuth [phi]. *)
Theorem sample_direction_unit_shared_azimuth :
  forall (G : Type) (RS : RandomState G) (L : RandomStateLaws G)
         (uninit : nat -> Vec3) (n_samples : nat) (g : G),
    exists cos_theta g1 samples,
      rng_uniform_size (-1) 1 n_samples g = Ok (cos_theta, g1)
      /\ length cos_theta = n_samples
      /\ Forall (fun c => -1 <= c <= 1) cos_theta
      /\ (let phi := fst (uniform 0 (2 * PI) g1) in
          0 <= phi <= 2 * PI
          /\ sample_direction uninit n_samples g
             = Ok (samples, snd (uniform 0 (2 * PI) g1))
          /\ samples
             = map (fun c => mkVec3 (sin (acos c) * cos phi)
                               (sin (acos c) * sin phi) (cos (acos c)))
                 cos_theta
          /\ map vz samples = cos_theta
          /\ Forall (fun p => norm3 p = 1) samples
          /\ Forall (fun p => vx p * sin phi = vy p * cos phi) samples).
Proof.
  intros G RS L uninit n g.
  destruct (rng_uniform_size_returns (-1) 1 n ltac:(lra) g)
    as [cs [g1 [E [Hlen Hrange]]]].
  exists cs, g1. eexists. split; [exact E|]. split; [exact Hlen|].
  split; [exact Hrange|]. cbn zeta.
  assert (Hpi : 0 <= 2 * PI) by (pose proof PI_RGT_0; lra).
  split; [apply uniform_range; exact Hpi|].
  split; [|split; [reflexivity|]].
  - unfold sample_direction. rewrite (bind_ok _ _ _ _ _ E).
    unfold rng_uniform. rewrite bind_draw. unfold ret.
    rewrite (set_col_xyz_map
               (fun t => sin t * cos (fst (uniform 0 (2 * PI) g1)))
               (fun t => sin t * sin (fst (uniform 0 (2 * PI) g1)))
               cos (map acos cs))
      by (rewrite np_empty_length, length_map; symmetry; exact Hlen).
    rewrite map_map. reflexivity.
  - split; [|split].
    + rewrite map_map. cbn [vz]. rewrite <- (map_id cs) at 2.
      apply map_ext_in. intros c Hc. apply cos_acos.
      rewrite Forall_forall in Hrange. apply Hrange. exact Hc.
    + apply Forall_map_iff, Forall_forall. intros c _.
      apply spherical_norm3.
    + apply Forall_map_iff, Forall_forall. intros c _. cbn [vx vy]. ring.
Qed.

Lemma sample_direction_unit_shared_azimuth_witness :
  exists cos_theta g1 samples,
    rng_uniform_size (-1) 1 2 0%nat = Ok (cos_theta, g1)
    /\ length cos_theta = 2%nat
    /\ Forall (fun c => -1 <= c <= 1) cos_theta
    /\ (let phi := fst (uniform 0 (2 * PI) g1) in
        0 <= phi <= 2 * PI
        /\ sample_direction (fun _ => mkVec3 7 7 7) 2 0%nat
           = Ok (samples, snd (uniform 0 (2 * PI) g1))
        /\ samples
           = map (fun c => mkVec3 (sin (acos c) * cos phi)
                             (sin (acos c) * sin phi) (cos (acos c)))
               cos_theta
        /\ map vz samples = cos_theta
        /\ Forall (fun p => norm3 p = 1) samples
        /\ Forall (fun p => vx p * sin phi = vy p * cos phi) samples).
Proof.
  exact (sample_direction_unit_shared_azimuth nat counter_rng counter_rng_laws
           (fun _ => mkVec3 7 7 7) 2 0%nat).
Defined.

(** ** generate_noise *)

Section Noise.

Context {G : Type} {RS : RandomState G}.

Lemma bind_inv {A B} (m : @Py G A) (k : A -> @Py G B) (g : G) (r : B * G) :
  bind m k g = Ok r -> exists a g1, m g = Ok (a, g1) /\ k a g1 = Ok r.
Proof.
  unfold bind. destruct (m g) as [[a g1]|e]; intros E; [eauto|discriminate].
Qed.

Lemma rng_poisson_inv (lam : R) (g : G) (r : nat * G) :
  rng_poisson lam g = Ok r -> ~ lam < 0 /\ r = poisson lam g.
Proof.
  unfold rng_poisson. destruct (Rlt_dec lam 0) as [Hneg|Hpos].
  - discriminate.
  - unfold draw. intros E. injection E as <-. auto.
Qed.

Lemma rng_poisson_ok (lam : R) (g : G) :
  ~ lam < 0 -> rng_poisson lam g = Ok (fst (poisson lam g), snd (poisson lam g)).
Proof.
  intros Hpos. unfold rng_poisson.
  destruct (Rlt_dec lam 0); [contradiction|].
  unfold draw. destruct (poisson lam g); reflexivity.
Qed.

Lemma insert_sorted_length (t : R) (ts : list R) :
  length (insert_sorted t ts) = S (length ts).
Proof.
  induction ts as [|u ts IH]; cbn [insert_sorted]; [reflexivity|].
  destruct (Rle_dec t u); cbn [length]; [|rewrite IH]; reflexivity.
Qed.

Lemma sort_times_length (ts : list R) : length (sort_times ts) = length ts.
Proof.
  induction ts as [|t ts IH]; cbn [sort_times fold_right]; [reflexivity|].
  fold (sort_times ts). rewrite insert_sorted_length, IH. reflexivity.
Qed.

(** With every noise rate at zero the loop appends one empty sequence per
    module. *)
Lemma generate_noise_loop_zero_rate `{!RandomStateLaws G} (time_range : R * R)
    (dT : R) (mods : list DetModule) :
  forall (all_times_det : list (list R)) (g : G),
    Forall (fun m => noise_rate m = 0) mods ->
    exists g',
      generate_noise_loop mods time_range dT all_times_det g
      = Ok (all_times_det ++ repeat [] (length mods), g').
Proof.
  induction mods as [|m mods IH]; intros acc g Hz.
  - exists g. cbn. rewrite app_nil_r. reflexivity.
  - inversion Hz as [|? ? Hm Hrest]; subst.
    cbn [generate_noise_loop]. rewrite Hm, Rmult_0_l.
    rewrite (bind_ok _ _ _ _ _ (rng_poisson_ok 0 g ltac:(lra))).
    rewrite poisson_zero. cbn [rng_uniform_size replicateM]. rewrite bind_ret.
    destruct (IH (acc ++ [[]]) (snd (poisson 0 g)) Hrest) as [g' E].
    exists g'. rewrite E, <- app_assoc. reflexivity.
Qed.

(** Whenever the loop returns, [noise_amps] returns the Poisson counts it
    drew, and every appended sequence has as many hit times as its count. *)
Lemma generate_noise_loop_amps (time_range : R * R) (dT : R)
    (mods : list DetModule) :
  forall (all_times_det : list (list R)) (amps : list nat) (g g' : G)
         (out : list (list R)),
    generate_noise_loop mods time_range dT all_times_det g = Ok (out, g') ->
    exists amps' times',
      noise_amps mods time_range dT amps g = Ok (amps ++ amps', g')
      /\ out = all_times_det ++ times'
      /\ length times' = length mods
      /\ Forall2 (fun k ts => length ts = k) amps' times'.
Proof.
  induction mods as [|m mods IH]; intros acc amps g g' out E.
  - cbn in E. injection E as <- <-. exists [], [].
    cbn. rewrite !app_nil_r. auto.
  - cbn [generate_noise_loop] in E.
    apply bind_inv in E. destruct E as [k [g1 [Ek E]]].
    apply bind_inv in E. destruct E as [ts [g2 [Ets E]]].
    destruct (rng_uniform_size_length (fst time_range) (snd time_range) k g1)
      as [ts' [g2' [Ets' Hlen]]].
    rewrite Ets in Ets'. injection Ets' as <- <-.
    destruct (IH _ (amps ++ [k]) _ _ _ E) as [amps' [times' [Ea [Eo [Hl F]]]]].
    exists (k :: amps'), (ts :: times').
    cbn [noise_amps]. rewrite (bind_ok _ _ _ _ _ Ek), (bind_ok _ _ _ _ _ Ets).
    rewrite Ea, Eo, <- !app_assoc. cbn [app length].
    split; [reflexivity|]. split; [reflexivity|]. split; [lia|].
    constructor; assumption.
Qed.

(** The loop returns as soon as no Poisson rate is negative. *)
Lemma generate_noise_loop_returns (time_range : R * R) (dT : R)
    (mods : list DetModule) :
  Forall (fun m => 0 <= noise_rate m * dT) mods ->
  forall (all_times_det : list (list R)) (g : G),
    exists out g',
      generate_noise_loop mods time_range dT all_times_det g = Ok (out, g').
Proof.
  induction mods as [|m mods IH]; intros Hpos acc g.
  - exists acc, g. reflexivity.
  - inversion Hpos as [|? ? Hm Hrest]; subst.
    cbn [generate_noise_loop].
    assert (Hn : ~ noise_rate m * dT < 0) by lra.
    rewrite (bind_ok _ _ _ _ _ (rng_poisson_ok _ g Hn)).
    destruct (rng_uniform_size_length (fst time_range) (snd time_range)
                (fst (poisson (noise_rate m * dT) g))
                (snd (poisson (noise_rate m * dT) g)))
      as [ts [g2 [Ets _]]].
    rewrite (bind_ok _ _ _ _ _ Ets). apply IH. exact Hrest.
Qed.

End Noise.

(** C8. With every noise rate at zero, [generate_noise] returns one empty
    sequence per module, whatever the time range. In general, whenever it
    returns, it returns one sequence per module, holding as many hit times as
    the Poisson count drawn for that module: a module whose count is zero
    contributes the empty sequence. It does return when no module has a
    negative Poisson rate. *)
Theorem generate_noise_zero_rate_empty :
  forall (G : Type) (RS : RandomState G) (L : RandomStateLaws G)
         (det : Detector) (time_range : R * R) (g : G),
    (Forall (fun m => noise_rate m = 0) (modules det) ->
       exists g',
         generate_noise det time_range g
         = Ok (repeat [] (length (modules det)), g'))
    /\ (forall out g',
          generate_noise det time_range g = Ok (out, g') ->
          exists amps,
            noise_amps (modules det) time_range
              (snd time_range - fst time_range) [] g = Ok (amps, g')
            /\ length out = length (modules det)
            /\ Forall2 (fun k ts => length ts = k /\ (k = 0%nat -> ts = []))
                 amps out)
    /\ (Forall (fun m => 0 <= noise_rate m * (snd time_range - fst time_range))
          (modules det) ->
        exists out g', generate_noise det time_range g = Ok (out, g')).
Proof.
  intros G RS L det time_range g. unfold generate_noise. split; [|split].
  - intros Hz.
    destruct (generate_noise_loop_zero_rate time_range
                (snd time_range - fst time_range) (modules det) [] g Hz)
      as [g' E].
    exists g'. rewrite (bind_ok _ _ _ _ _ E). unfold ret, ak_sort.
    cbn [app]. rewrite map_repeat. reflexivity.
  - intros out g' E. apply bind_inv in E. destruct E as [l [g1 [El E]]].
    unfold ret in E. injection E as <- <-.
    destruct (generate_noise_loop_amps _ _ _ _ [] _ _ _ El)
      as [amps [times [Ea [Eo [Hl F]]]]].
    cbn [app] in Ea, Eo. subst l. exists amps.
    split; [exact Ea|]. unfold ak_sort.
    split; [rewrite length_map; exact Hl|].
    clear -F. induction F as [|k ts amps times Hk F IH]; cbn [map];
      constructor; [|exact IH].
    rewrite sort_times_length. split; [exact Hk|].
    intros ->. destruct ts; [reflexivity|discriminate].
  - intros Hpos.
    destruct (generate_noise_loop_returns time_range _ _ Hpos [] g)
      as [l [g1 El]].
    do 2 eexists. rewrite (bind_ok _ _ _ _ _ El). reflexivity.
Qed.

Lemma generate_noise_zero_rate_empty_witness :
  Forall (fun m => noise_rate m = 0) (modules quiet_detector)
  /\ (exists g',
        generate_noise quiet_detector (0, 100) 0%nat = Ok ([[]; []], g'))
  /\ (forall out g',
        generate_noise quiet_detector (0, 100) 0%nat = Ok (out, g') ->
        exists amps,
          noise_amps (modules quiet_detector) (0, 100)
            (snd (0, 100) - fst (0, 100)) [] 0%nat = Ok (amps, g')
          /\ length out = length (modules quiet_detector)
          /\ Forall2 (fun k ts => length ts = k /\ (k = 0%nat -> ts = []))
               amps out).
Proof.
  assert (Hz : Forall (fun m => noise_rate m = 0) (modules quiet_detector))
    by (repeat constructor).
  destruct (generate_noise_zero_rate_empty nat counter_rng counter_rng_laws
              quiet_detector (0, 100) 0%nat) as [Hzero [Hamps _]].
  split; [exact Hz|]. split; [exact (Hzero Hz)|exact Hamps].
Defined.

(** ** Cylinder samplers *)

Lemma norm2_polar (rr t z : R) :
  0 <= rr -> norm2 (mkVec3 (rr * sin t) (rr * cos t) z) = rr.
Proof.
  intros Hrr. unfold norm2, Rsq. cbn [vx vy].
  replace (rr * sin t * (rr * sin t) + rr * cos t * (rr * cos t))
    with (rr * rr * (Rsqr (sin t) + Rsqr (cos t))) by (unfold Rsqr; ring).
  rewrite sin2_cos2, Rmult_1_r. apply sqrt_square. exact Hrr.
Qed.

Lemma disk_radius_range (radius u : R) :
  0 <= radius -> 0 <= u <= 1 -> 0 <= radius * sqrt u <= radius.
Proof.
  intros Hr [Hu0 Hu1].
  pose proof (sqrt_pos u) as Hs0.
  assert (Hs1 : sqrt u <= 1) by (rewrite <- sqrt_1; apply sqrt_le_1; lra).
  split; nra.
Qed.

Lemma Rabs_half_height (height z : R) :
  - height / 2 <= z <= height / 2 -> Rabs z <= height / 2.
Proof. intros [Hlo Hhi]. apply Rabs_le. lra. Qed.

Lemma Rabs_cap (height z : R) :
  0 <= height -> In z [- height / 2; height / 2] -> Rabs z = height / 2.
Proof.
  intros Hh [<-|[<-|[]]].
  - replace (- height / 2) with (- (height / 2)) by lra.
    rewrite Rabs_Ropp. apply Rabs_pos_eq. lra.
  - apply Rabs_pos_eq. lra.
Qed.

(** The rows written by [sample_cylinder_volume]. *)
Lemma volume_rows (height radius : R) :
  forall (samples : list Vec3) (theta rs zs : list R),
    length theta = length samples ->
    length rs = length samples ->
    length zs = length samples ->
    Forall (fun rr => 0 <= rr <= radius) rs ->
    Forall (fun z => - height / 2 <= z <= height / 2) zs ->
    let out :=
      set_col set_z zs
        (set_col set_y (zip_with Rmult rs (map cos theta))
           (set_col set_x (zip_with Rmult rs (map sin theta)) samples)) in
    length out = length samples /\ Forall (in_cylinder height radius) out.
Proof.
  unfold set_col.
  induction samples as [|p samples IH]; intros theta rs zs Ht Hr Hz Frs Fzs;
    destruct theta as [|t theta]; destruct rs as [|rr rs];
    destruct zs as [|z zs]; cbn [length] in *; try discriminate.
  - cbn. auto.
  - inversion Frs as [|? ? Hrr Frs']; inversion Fzs as [|? ? Hzz Fzs']; subst.
    cbn [map zip_with].
    destruct (IH theta rs zs ltac:(lia) ltac:(lia) ltac:(lia) Frs' Fzs')
      as [Hlen Hall].
    cbn zeta in Hlen, Hall. cbn [length]. split; [rewrite Hlen; reflexivity|].
    constructor; [|exact Hall].
    unfold set_x, set_y, set_z. cbn [vx vy vz]. split.
    + rewrite norm2_polar by lra. lra.
    + cbn [vz]. apply Rabs_half_height. exact Hzz.
Qed.

Section Volume.

Context {G : Type} {RS : RandomState G} `{!RandomStateLaws G}.
Variable uninit : nat -> Vec3.

Lemma sample_cylinder_volume_in_cylinder (height radius : R) (n : nat) (g : G) :
  0 <= height -> 0 <= radius ->
  exists pts g',
    sample_cylinder_volume uninit height radius n g = Ok (pts, g')
    /\ length pts = n
    /\ Forall (in_cylinder height radius) pts.
Proof.
  intros Hh Hr.
  assert (Hpi : 0 <= 2 * PI) by (pose proof PI_RGT_0; lra).
  destruct (rng_uniform_size_length 0 (2 * PI) n g) as [theta [g1 [E1 Ht]]].
  destruct (rng_uniform_size_returns 0 1 n ltac:(lra) g1)
    as [u_r [g2 [E2 [Hu Fu]]]].
  destruct (rng_uniform_size_returns (- height / 2) (height / 2) n
              ltac:(lra) g2) as [z [g3 [E3 [Hz Fz]]]].
  unfold sample_cylinder_volume. cbv zeta.
  rewrite (bind_ok _ _ _ _ _ E1), (bind_ok _ _ _ _ _ E2), (bind_ok _ _ _ _ _ E3).
  unfold ret. do 2 eexists. split; [reflexivity|].
  pose proof (np_empty_length uninit n) as He.
  destruct (volume_rows height radius (np_empty uninit n) theta
              (map (fun v => radius * sqrt v) u_r) z) as [Hlen Hall].
  - rewrite He. exact Ht.
  - rewrite length_map, He. exact Hu.
  - rewrite He. exact Hz.
  - apply Forall_map_iff. eapply Forall_impl; [|exact Fu].
    cbn beta. intros u Hu01. apply disk_radius_range; assumption.
  - exact Fz.
  - cbn zeta in Hlen, Hall. rewrite He in Hlen. split; assumption.
Qed.

End Volume.

(** *** Masked assignments *)

Lemma count_true_cons (b : bool) (mask : list bool) :
  count_true (b :: mask) = ((if b then 1 else 0) + count_true mask)%nat.
Proof. unfold count_true. destruct b; reflexivity. Qed.

Lemma count_true_negb (mask : list bool) :
  count_true (map negb mask) = (length mask - count_true mask)%nat.
Proof.
  induction mask as [|b mask IH]; [reflexivity|].
  cbn [map length]. rewrite !count_true_cons, IH.
  assert (count_true mask <= length mask)%nat
    by (unfold count_true; apply filter_length_le).
  destruct b; cbn [negb]; lia.
Qed.

Lemma select_length {A} (mask : list bool) :
  forall a : list A, length a = length mask ->
    length (select mask a) = count_true mask.
Proof.
  induction mask as [|b mask IH]; intros [|v a] Hlen; cbn [length] in Hlen;
    try discriminate; [reflexivity|].
  rewrite count_true_cons. cbn [select].
  destruct b; cbn [length]; rewrite IH by lia; reflexivity.
Qed.

Lemma zip_with_length {A B C} (f : A -> B -> C) (a : list A) :
  forall b : list B, length b = length a -> length (zip_with f a b) = length a.
Proof.
  induction a as [|x a IH]; intros [|y b] Hlen; cbn [length] in Hlen;
    try discriminate; [reflexivity|].
  cbn [zip_with length]. rewrite IH by lia. reflexivity.
Qed.

(** The rows left by the six masked assignments of
    [sample_cylinder_surface]: a row under the mask is a cap point, a row
    outside it a point of the lateral surface, whatever the array held
    before. *)
Lemma surface_rows (height radius : R) :
  0 <= height -> 0 <= radius ->
  forall (is_top : list bool) (samples : list Vec3) (theta rs z_top z_side : list R),
    length samples = length is_top ->
    length theta = length is_top ->
    length rs = count_true is_top ->
    length z_top = count_true is_top ->
    length z_side = count_true (map negb is_top) ->
    Forall (fun rr => 0 <= rr <= radius) rs ->
    Forall (fun z => In z [- height / 2; height / 2]) z_top ->
    Forall (fun z => - height / 2 <= z <= height / 2) z_side ->
    let not_top := map negb is_top in
    let out :=
      scatter set_z not_top z_side
        (scatter set_y not_top
           (map (fun t => radius * cos t) (select not_top theta))
           (scatter set_x not_top
              (map (fun t => radius * sin t) (select not_top theta))
              (scatter set_z is_top z_top
                 (scatter set_y is_top
                    (zip_with Rmult rs (map cos (select is_top theta)))
                    (scatter set_x is_top
                       (zip_with Rmult rs (map sin (select is_top theta)))
                       samples))))) in
    Forall2 (fun (b : bool) p =>
               if b then on_cap height radius p
               else on_lateral_surface height radius p)
      is_top out.
Proof.
  intros Hh Hr.
  induction is_top as [|b mask IH];
    intros samples theta rs z_top z_side Hs Ht Hrs Hzt Hzs Frs Fzt Fzs;
    destruct samples as [|p samples]; destruct theta as [|t theta];
    cbn [length] in Hs, Ht; try discriminate.
  - cbn. constructor.
  - rewrite count_true_cons in Hrs, Hzt. cbn [map] in Hzs.
    rewrite count_true_cons in Hzs. destruct b; cbn [negb] in Hzs.
    + destruct rs as [|rr rs]; destruct z_top as [|c z_top];
        cbn [length] in Hrs, Hzt; try discriminate.
      inversion Frs as [|? ? Hrr Frs']; inversion Fzt as [|? ? Hc Fzt']; subst.
      cbn [map negb select zip_with scatter]. constructor.
      * unfold set_x, set_y, set_z, on_cap. cbn [vx vy vz]. split.
        -- rewrite norm2_polar by lra. lra.
        -- apply Rabs_cap; assumption.
      * apply IH; try assumption; lia.
    + inversion Fzs as [|z z_side' Hz Fzs' Ez]; subst.
      * cbn [length] in Hzs. discriminate.
      * cbn [length] in Hzs.
        cbn [map negb select scatter]. constructor.
        -- unfold set_x, set_y, set_z, on_lateral_surface. cbn [vx vy vz].
           split.
           ++ apply norm2_polar. exact Hr.
           ++ apply Rabs_half_height. exact Hz.
        -- apply IH; try assumption; lia.
Qed.

Section Surface.

Context {G : Type} {RS : RandomState G} `{!RandomStateLaws G}.
Variable uninit : nat -> Vec3.

Lemma py_div_ok (x y : R) (g : G) : y <> 0 -> py_div x y g = Ok (x / y, g).
Proof.
  intros Hy. unfold py_div. destruct (Req_dec_T y 0); [contradiction|].
  reflexivity.
Qed.

Lemma bind_set_masked {B} (upd : R -> Vec3 -> Vec3) (mask : list bool)
    (vals : list R) (samples : list Vec3) (k : list Vec3 -> @Py G B) (g : G) :
  length vals = count_true mask ->
  bind (set_masked upd mask vals samples) k g
  = k (scatter upd mask vals samples) g.
Proof.
  intros Hlen. unfold set_masked.
  rewrite (proj2 (Nat.eqb_eq _ _) Hlen). reflexivity.
Qed.

Lemma surface_area_positive (height radius : R) :
  0 <= height -> 0 < radius ->
  2 * PI * radius ^ 2 + 2 * PI * radius * height <> 0.
Proof.
  intros Hh Hr. pose proof PI_RGT_0 as Hpi. cbn [pow].
  assert (Hpr : 0 < PI * radius) by (apply Rmult_lt_0_compat; assumption).
  assert (Htop : 0 < PI * radius * radius)
    by (apply Rmult_lt_0_compat; assumption).
  assert (Hside : 0 <= PI * radius * height)
    by (apply Rmult_le_pos; [apply Rlt_le|]; assumption).
  lra.
Qed.

(** With a positive radius the surface sampler returns [n] rows; the rows
    under the mask [is_top] are cap points, the others points of the lateral
    surface. *)
Lemma sample_cylinder_surface_run (height radius : R) (n : nat) (g : G) :
  0 <= height -> 0 < radius ->
  exists pts g' is_top,
    sample_cylinder_surface uninit height radius n g = Ok (pts, g')
    /\ length pts = n
    /\ Forall2 (fun (b : bool) p =>
                  if b then on_cap height radius p
                  else on_lateral_surface height radius p)
         is_top pts.
Proof.
  intros Hh Hr.
  pose proof (surface_area_positive height radius Hh Hr) as Harea.
  destruct (rng_uniform_size_length 0 1 n g) as [u [g1 [E1 Hu]]].
  set (ratio := 2 * PI * radius ^ 2
                / (2 * PI * radius ^ 2 + 2 * PI * radius * height)).
  set (is_top := map (fun v => Rltb v ratio) u).
  set (not_top := map negb is_top).
  assert (Hmask : length is_top = n)
    by (unfold is_top; rewrite length_map; exact Hu).
  assert (Hnmask : length not_top = n)
    by (unfold not_top; rewrite length_map; exact Hmask).
  destruct (rng_uniform_size_length 0 (2 * PI) n g1) as [theta [g2 [E2 Ht]]].
  destruct (rng_uniform_size_returns 0 1 (count_true is_top) ltac:(lra) g2)
    as [u_r [g3 [E3 [Hur Fur]]]].
  destruct (rng_choice_returns [- height / 2; height / 2] (count_true is_top)
              ltac:(discriminate) g3) as [z_top [g4 [E4 [Hzt Fzt]]]].
  destruct (rng_uniform_size_returns (- height / 2) (height / 2)
              (n - count_true is_top) ltac:(lra) g4)
    as [z_side [g5 [E5 [Hzs Fzs]]]].
  set (r := map (fun v => radius * sqrt v) u_r).
  assert (Hr_len : length r = count_true is_top)
    by (unfold r; rewrite length_map; exact Hur).
  assert (Hsel : length (select is_top theta) = count_true is_top)
    by (apply select_length; lia).
  assert (Hnsel : length (select not_top theta) = count_true not_top)
    by (apply select_length; lia).
  assert (Hnot : count_true not_top = (n - count_true is_top)%nat)
    by (unfold not_top; rewrite count_true_negb, Hmask; reflexivity).
  exists (scatter set_z not_top z_side
            (scatter set_y not_top
               (map (fun t => radius * cos t) (select not_top theta))
               (scatter set_x not_top
                  (map (fun t => radius * sin t) (select not_top theta))
                  (scatter set_z is_top z_top
                     (scatter set_y is_top
                        (zip_with Rmult r (map cos (select is_top theta)))
                        (scatter set_x is_top
                           (zip_with Rmult r (map sin (select is_top theta)))
                           (np_empty uninit n))))))),
    g5, is_top.
  assert (Hrows :
    Forall2 (fun (b : bool) p =>
               if b then on_cap height radius p
               else on_lateral_surface height radius p)
      is_top
      (scatter set_z not_top z_side
         (scatter set_y not_top
            (map (fun t => radius * cos t) (select not_top theta))
            (scatter set_x not_top
               (map (fun t => radius * sin t) (select not_top theta))
               (scatter set_z is_top z_top
                  (scatter set_y is_top
                     (zip_with Rmult r (map cos (select is_top theta)))
                     (scatter set_x is_top
                        (zip_with Rmult r (map sin (select is_top theta)))
                        (np_empty uninit n)))))))).
  { apply (surface_rows height radius Hh (Rlt_le _ _ Hr) is_top
             (np_empty uninit n) theta r z_top z_side);
      try assumption; try lia.
    - rewrite np_empty_length. lia.
    - fold not_top. lia.
    - unfold r. apply Forall_map_iff. eapply Forall_impl; [|exact Fur].
      cbn beta. intros v Hv. apply disk_radius_range; [lra|exact Hv]. }
  split; [|split; [|exact Hrows]].
  - unfold sample_cylinder_surface. cbv zeta.
    rewrite (bind_ok _ _ _ _ _ (py_div_ok _ _ g Harea)).
    rewrite (bind_ok _ _ _ _ _ E1). fold ratio. fold is_top. fold not_top.
    rewrite (bind_ok _ _ _ _ _ E2), (bind_ok _ _ _ _ _ E3). fold r.
    rewrite bind_set_masked
      by (rewrite zip_with_length; rewrite ?length_map; lia).
    rewrite bind_set_masked
      by (rewrite zip_with_length; rewrite ?length_map; lia).
    rewrite (bind_ok _ _ _ _ _ E4).
    rewrite bind_set_masked by exact Hzt.
    rewrite bind_set_masked by (rewrite length_map; exact Hnsel).
    rewrite bind_set_masked by (rewrite length_map; exact Hnsel).
    rewrite (bind_ok _ _ _ _ _ E5).
    rewrite bind_set_masked by lia.
    reflexivity.
  - apply Forall2_length in Hrows. lia.
Qed.

(** With radius zero the ratio of the areas is 0/0: Python raises. *)
Lemma sample_cylinder_surface_zero_radius (height : R) (n : nat) (g : G) :
  sample_cylinder_surface uninit height 0 n g
  = Raise (ZeroDivisionError "float division by zero").
Proof.
  unfold sample_cylinder_surface. cbv zeta. unfold bind, py_div.
  destruct (Req_dec_T (2 * PI * 0 ^ 2 + 2 * PI * 0 * height) 0) as [_|Hne].
  - reflexivity.
  - exfalso. apply Hne. cbn [pow]. ring.
Qed.

End Surface.

Lemma surface_point_in_cylinder (height radius : R) (p : Vec3) :
  on_lateral_surface height radius p \/ on_cap height radius p ->
  (norm2 p = radius \/ Rabs (vz p) = height / 2)
  /\ in_cylinder height radius p.
Proof.
  unfold on_lateral_surface, on_cap, in_cylinder.
  intros [[Hn Hz]|[Hn Hz]]; (split; [auto|split; lra]).
Qed.

(** C2. For a non-negative height and radius, [sample_cylinder_volume]
    returns [n] points with [sqrt(x^2+y^2) <= radius] and
    [|z| <= height/2]; every point that [sample_cylinder_surface] returns
    lies on the lateral surface ([sqrt(x^2+y^2) = radius], [|z| <= height/2])
    or on a cap ([|z| = height/2], [sqrt(x^2+y^2) <= radius]), and for a
    positive radius it returns [n] such points. *)
Theorem cylinder_samples_on_cylinder :
  forall (G : Type) (RS : RandomState G) (L : RandomStateLaws G)
         (uninit : nat -> Vec3) (height radius : R) (n : nat) (g : G),
    0 <= height -> 0 <= radius ->
    (exists pts g',
        sample_cylinder_volume uninit height radius n g = Ok (pts, g')
        /\ length pts = n
        /\ Forall (fun p => norm2 p <= radius /\ Rabs (vz p) <= height / 2) pts)
    /\ (forall pts g',
          sample_cylinder_surface uninit height radius n g = Ok (pts, g') ->
          length pts = n
          /\ Forall (fun p =>
                       (on_lateral_surface height radius p
                        \/ on_cap height radius p)
                       /\ (norm2 p = radius \/ Rabs (vz p) = height / 2)
                       /\ in_cylinder height radius p) pts)
    /\ (0 < radius ->
        exists pts g',
          sample_cylinder_surface uninit height radius n g = Ok (pts, g')).
Proof.
  intros G RS L uninit height radius n g Hh Hr. split; [|split].
  - destruct (sample_cylinder_volume_in_cylinder uninit height radius n g Hh Hr)
      as [pts [g' [E [Hlen Hall]]]].
    exists pts, g'. auto.
  - intros pts g' E. destruct Hr as [Hpos|Hzero].
    + destruct (sample_cylinder_surface_run uninit height radius n g Hh Hpos)
        as [pts' [g'' [is_top [E' [Hlen Hrows]]]]].
      rewrite E in E'. injection E' as <- <-. split; [exact Hlen|].
      clear -Hrows. induction Hrows as [|b p mask pts Hp _ IH]; constructor.
      * assert (Hd : on_lateral_surface height radius p
                     \/ on_cap height radius p)
          by (destruct b; [right|left]; exact Hp).
        split; [exact Hd|apply surface_point_in_cylinder; exact Hd].
      * exact IH.
    + subst radius.
      rewrite sample_cylinder_surface_zero_radius in E. discriminate.
  - intros Hpos.
    destruct (sample_cylinder_surface_run uninit height radius n g Hh Hpos)
      as [pts [g' [_ [E _]]]].
    exists pts, g'. exact E.
Qed.

Lemma cylinder_samples_on_cylinder_witness :
  (exists pts g',
      sample_cylinder_volume (fun _ => mkVec3 7 7 7) 10 5 3 0%nat = Ok (pts, g')
      /\ length pts = 3%nat
      /\ Forall (fun p => norm2 p <= 5 /\ Rabs (vz p) <= 10 / 2) pts)
  /\ (forall pts g',
        sample_cylinder_surface (fun _ => mkVec3 7 7 7) 10 5 3 0%nat
        = Ok (pts, g') ->
        length pts = 3%nat
        /\ Forall (fun p =>
                     (on_lateral_surface 10 5 p \/ on_cap 10 5 p)
                     /\ (norm2 p = 5 \/ Rabs (vz p) = 10 / 2)
                     /\ in_cylinder 10 5 p) pts)
  /\ (exists pts g',
        sample_cylinder_surface (fun _ => mkVec3 7 7 7) 10 5 3 0%nat
        = Ok (pts, g')).
Proof.
  destruct (cylinder_samples_on_cylinder nat counter_rng counter_rng_laws
              (fun _ => mkVec3 7 7 7) 10 5 3 0%nat ltac:(lra) ltac:(lra))
    as [Hvol [Hsurf Hret]].
  split; [exact Hvol|]. split; [exact Hsurf|]. apply Hret. lra.
Defined.

(** * Further properties of the trigger *)

Lemma qualifying_modules_le_length (event_times : list (list R)) (phot_thres : Z) :
  (qualifying_modules event_times phot_thres <= length event_times)%nat.
Proof. unfold qualifying_modules. apply filter_length_le. Qed.

Lemma qualifying_modules_antitone (event_times : list (list R))
    (phot_thres phot_thres' : Z) :
  (phot_thres' <= phot_thres)%Z ->
  (qualifying_modules event_times phot_thres
   <= qualifying_modules event_times phot_thres')%nat.
Proof.
  intros Hle. unfold qualifying_modules.
  induction event_times as [|hits rest IH]; [apply Nat.le_refl|].
  cbn [filter].
  destruct (Z.ltb_spec phot_thres (Z.of_nat (length hits))) as [H1|H1];
    destruct (Z.ltb_spec phot_thres' (Z.of_nat (length hits))) as [H2|H2];
    cbn [length]; lia.
Qed.

Lemma qualifying_modules_perm (ev ev' : list (list R)) (phot_thres : Z) :
  Permutation ev ev' ->
  qualifying_modules ev phot_thres = qualifying_modules ev' phot_thres.
Proof.
  intros Hp. unfold qualifying_modules.
  induction Hp as [|hits l l' _ IH|h1 h2 l|l l' l'' _ IH1 _ IH2].
  - reflexivity.
  - cbn [filter]. destruct (phot_thres <? Z.of_nat (length hits))%Z;
      cbn [length]; rewrite IH; reflexivity.
  - cbn [filter].
    destruct (phot_thres <? Z.of_nat (length h1))%Z;
      destruct (phot_thres <? Z.of_nat (length h2))%Z; reflexivity.
  - rewrite IH1. exact IH2.
Qed.

Lemma qualifying_modules_same_counts (ev ev' : list (list R)) (phot_thres : Z) :
  Forall2 (fun hits hits' => length hits = length hits') ev ev' ->
  qualifying_modules ev phot_thres = qualifying_modules ev' phot_thres.
Proof.
  intros F. unfold qualifying_modules.
  induction F as [|hits hits' l l' Hlen _ IH]; [reflexivity|].
  cbn [filter]. rewrite Hlen.
  destruct (phot_thres <? Z.of_nat (length hits'))%Z; cbn [length];
    rewrite IH; reflexivity.
Qed.

Lemma trigger_eq_of_qualifying (d d' : Detector) (ev ev' : list (list R))
    (mod_thresh phot_thres : Z) :
  qualifying_modules ev phot_thres = qualifying_modules ev' phot_thres ->
  trigger d ev mod_thresh phot_thres = trigger d' ev' mod_thresh phot_thres.
Proof.
  intros E. unfold trigger. rewrite !ak_sum_bool_qualifying, E. reflexivity.
Qed.

(** Lowering either threshold never switches a trigger off. *)
Theorem trigger_threshold_monotone :
  forall det event_times mod_thresh phot_thres mod_thresh' phot_thres',
    (mod_thresh' <= mod_thresh)%Z -> (phot_thres' <= phot_thres)%Z ->
    trigger det event_times mod_thresh phot_thres = true ->
    trigger det event_times mod_thresh' phot_thres' = true.
Proof.
  intros det ev mt pt mt' pt' Hm Hp Ht.
  apply trigger_true_iff in Ht. apply trigger_true_iff.
  pose proof (qualifying_modules_antitone ev pt pt' Hp). lia.
Qed.

Lemma trigger_threshold_monotone_witness :
  trigger quiet_detector (synthetic_event 9) 3 2 = true.
Proof.
  apply (trigger_threshold_monotone quiet_detector (synthetic_event 9) 8 5 3 2).
  - lia.
  - lia.
  - apply trigger_true_iff. rewrite qualifying_synthetic_9. lia.
Defined.

(** A collection with no more than [mod_thresh] modules never triggers,
    whatever it recorded: the default threshold 8 needs nine modules. *)
Theorem trigger_needs_more_modules_than_threshold :
  forall det event_times mod_thresh phot_thres,
    (Z.of_nat (length event_times) <= mod_thresh)%Z ->
    trigger det event_times mod_thresh phot_thres = false.
Proof.
  intros det ev mt pt Hlen.
  destruct (trigger det ev mt pt) eqn:E; [|reflexivity].
  apply trigger_true_iff in E.
  pose proof (qualifying_modules_le_length ev pt). lia.
Qed.

Lemma trigger_needs_more_modules_than_threshold_witness :
  trigger quiet_detector (repeat (repeat 0 6) 8) 8 5 = false.
Proof.
  apply (trigger_needs_more_modules_than_threshold quiet_detector
           (repeat (repeat 0 6) 8) 8 5).
  cbn [repeat length]. lia.
Defined.

(** The decision only counts hits: it is the same for any reordering of the
    modules, for any other collection with the same number of hits per
    module, and in particular before and after [ak_sort]. *)
Theorem trigger_counts_only :
  forall det event_times event_times' mod_thresh phot_thres,
    (Permutation event_times event_times'
     \/ Forall2 (fun hits hits' => length hits = length hits')
          event_times event_times') ->
    trigger det event_times mod_thresh phot_thres
    = trigger det event_times' mod_thresh phot_thres
    /\ trigger det (ak_sort event_times) mod_thresh phot_thres
       = trigger det event_times mod_thresh phot_thres.
Proof.
  intros det ev ev' mt pt H. split.
  - apply trigger_eq_of_qualifying.
    destruct H as [Hp|Hc];
      [apply qualifying_modules_perm|apply qualifying_modules_same_counts];
      assumption.
  - apply trigger_eq_of_qualifying, qualifying_modules_same_counts.
    unfold ak_sort. clear. induction ev as [|hits rest IH]; cbn [map];
      constructor; [apply sort_times_length|exact IH].
Qed.

Lemma trigger_counts_only_witness :
  trigger quiet_detector [[3; 1; 2]; []] 0 2
  = trigger quiet_detector [[]; [3; 1; 2]] 0 2
  /\ trigger quiet_detector (ak_sort [[3; 1; 2]; []]) 0 2
     = trigger quiet_detector [[3; 1; 2]; []] 0 2.
Proof.
  apply (trigger_counts_only quiet_detector [[3; 1; 2]; []] [[]; [3; 1; 2]] 0 2).
  left. apply perm_swap.
Defined.

(** * Further properties of the noise generator *)






Section NoiseFurther.

Context {G : Type} {RS : RandomState G}.



End NoiseFurther.





(** A detector without noise never triggers on its own noise: with every
    noise rate at zero and non-negative thresholds, [trigger] answers false
    on what [generate_noise] returns. *)
Theorem trigger_false_on_quiet_noise :
  forall (G : Type) (RS : RandomState G) (L : RandomStateLaws G)
         (det : Detector) (time_range : R * R) (g : G)
         (mod_thresh phot_thres : Z),
    Forall (fun m => noise_rate m = 0) (modules det) ->
    (0 <= mod_thresh)%Z -> (0 <= phot_thres)%Z ->
    exists out g',
      generate_noise det time_range g = Ok (out, g')
      /\ trigger det out mod_thresh phot_thres = false.
Proof.
  intros G RS L det time_range g mt pt Hz Hmt Hpt.
  destruct (generate_noise_loop_zero_rate time_range
              (snd time_range - fst time_range) (modules det) [] g Hz)
    as [g' El].
  do 2 eexists. split.
  - unfold generate_noise. rewrite (bind_ok _ _ _ _ _ El). reflexivity.
  - cbn [app]. unfold ak_sort. rewrite map_repeat. cbn [sort_times fold_right].
    destruct (trigger det (repeat [] (length (modules det))) mt pt) eqn:E;
      [|reflexivity].
    apply trigger_true_iff in E.
    assert (Hq : qualifying_modules (repeat [] (length (modules det))) pt = 0%nat).
    { unfold qualifying_modules. clear -Hpt.
      induction (length (modules det)) as [|k IH]; [reflexivity|].
      cbn [repeat filter length].
      replace (pt <? Z.of_nat 0)%Z with false
        by (symmetry; apply Z.ltb_ge; cbn; lia).
      exact IH. }
    rewrite Hq in E. cbn in E. lia.
Qed.

Lemma trigger_false_on_quiet_noise_witness :
  exists out g',
    generate_noise quiet_detector (0, 100) 0%nat = Ok (out, g')
    /\ trigger quiet_detector out 8 5 = false.
Proof.
  apply (trigger_false_on_quiet_noise nat counter_rng counter_rng_laws
           quiet_detector (0, 100) 0%nat 8 5).
  - repeat constructor.
  - lia.
  - lia.
Defined.

(** * Further properties of the detector container *)

Lemma norm2_nonneg (p : Vec3) : 0 <= norm2 p.
Proof. unfold norm2. apply sqrt_pos. Qed.

Lemma norm2_le_norm3 (p : Vec3) : norm2 p <= norm3 p.
Proof.
  unfold norm2, norm3, Rsq. apply sqrt_le_1_alt.
  pose proof (Rle_0_sqr (vz p)) as H. unfold Rsqr in H. lra.
Qed.

Lemma Rabs_le_bounds (a b : R) : Rabs a <= b -> - b <= a <= b.
Proof. unfold Rabs. destruct (Rcase_abs a); lra. Qed.

(** The three maxima that the constructor takes, read on the modules. *)
Lemma Detector_init_maxima (mods : list DetModule) :
  mods <> [] ->
  exists d m_far m_wide m_top,
    Detector_init mods = Ok d
    /\ d = mkDetector mods (map pos mods) (map pos mods) (map efficiency mods)
             (map noise_rate mods) (norm3 (pos m_far))
             (norm2 (pos m_wide), 2 * Rabs (vz (pos m_top))) (length mods)
    /\ In m_far mods /\ In m_wide mods /\ In m_top mods
    /\ Forall (fun m => norm3 (pos m) <= norm3 (pos m_far)) mods
    /\ Forall (fun m => norm2 (pos m) <= norm2 (pos m_wide)) mods
    /\ Forall (fun m => vz (pos m) <= vz (pos m_top)) mods.
Proof.
  intros Hne. destruct mods as [|m ms]; [contradiction|].
  destruct (np_max_spec (map norm3 (map pos (m :: ms))) _ eq_refl) as [U3 I3].
  destruct (np_max_spec (map norm2 (map pos (m :: ms))) _ eq_refl) as [U2 I2].
  destruct (np_max_spec (map vz (map pos (m :: ms))) _ eq_refl) as [Uz Iz].
  rewrite map_map in I3, I2, Iz.
  apply in_map_iff in I3. destruct I3 as [m3 [E3 I3]].
  apply in_map_iff in I2. destruct I2 as [m2 [E2 I2]].
  apply in_map_iff in Iz. destruct Iz as [mz [Ez Iz]].
  apply Forall_map_iff in U3, U2, Uz. apply Forall_map_iff in U3, U2, Uz.
  rewrite <- E3 in U3. rewrite <- E2 in U2. rewrite <- Ez in Uz.
  exists (mkDetector (m :: ms) (map pos (m :: ms)) (map pos (m :: ms))
            (map efficiency (m :: ms)) (map noise_rate (m :: ms))
            (norm3 (pos m3)) (norm2 (pos m2), 2 * Rabs (vz (pos mz)))
            (length (m :: ms))), m3, m2, mz.
  split; [rewrite Detector_init_nonempty, E3, E2, Ez; reflexivity|].
  split; [reflexivity|]. auto 10.
Qed.

(** For a non-empty module list the derived arrays of a detector are in
    step with its modules: each has [n_modules] entries and entry [i]
    belongs to module [i]. The radius of the outer cylinder is never
    negative and never exceeds the outer radius; the height of the outer
    cylinder is never negative. *)
Theorem Detector_derived_arrays :
  forall mods : list DetModule,
    mods <> [] ->
    exists d,
      Detector_init mods = Ok d
      /\ length (module_coords d) = n_modules d
      /\ length (module_coords_ak d) = n_modules d
      /\ length (module_efficiencies d) = n_modules d
      /\ length (module_noise_rates d) = n_modules d
      /\ (forall i m, nth_error (modules d) i = Some m ->
            nth_error (module_coords d) i = Some (pos m)
            /\ nth_error (module_coords_ak d) i = Some (pos m)
            /\ nth_error (module_efficiencies d) i = Some (efficiency m)
            /\ nth_error (module_noise_rates d) i = Some (noise_rate m))
      /\ 0 <= fst (outer_cylinder d) <= outer_radius d
      /\ 0 <= snd (outer_cylinder d).
Proof.
  intros mods Hne.
  destruct (Detector_init_maxima mods Hne)
    as [d [m3 [m2 [mz [E [Ed [I3 [I2 [Iz [U3 [U2 Uz]]]]]]]]]]].
  exists d. split; [exact E|]. subst d.
  cbn [module_coords module_coords_ak module_efficiencies module_noise_rates
       n_modules _n_modules modules outer_cylinder _outer_cylinder
       outer_radius _outer_radius fst snd].
  rewrite !length_map. repeat (split; [reflexivity|]).
  split; [|split; [split|]].
  - intros i m Hm. repeat split; apply map_nth_error; exact Hm.
  - apply norm2_nonneg.
  - rewrite Forall_forall in U3.
    eapply Rle_trans; [apply norm2_le_norm3|apply U3; exact I2].
  - pose proof (Rabs_pos (vz (pos mz))). lra.
Qed.

Lemma Detector_derived_arrays_witness :
  exists d,
    Detector_init two_modules = Ok d
    /\ length (module_coords d) = n_modules d
    /\ length (module_coords_ak d) = n_modules d
    /\ length (module_efficiencies d) = n_modules d
    /\ length (module_noise_rates d) = n_modules d
    /\ (forall i m, nth_error (modules d) i = Some m ->
          nth_error (module_coords d) i = Some (pos m)
          /\ nth_error (module_coords_ak d) i = Some (pos m)
          /\ nth_error (module_efficiencies d) i = Some (efficiency m)
          /\ nth_error (module_noise_rates d) i = Some (noise_rate m))
    /\ 0 <= fst (outer_cylinder d) <= outer_radius d
    /\ 0 <= snd (outer_cylinder d).
Proof.
  apply (Detector_derived_arrays two_modules).
  unfold two_modules. discriminate.
Defined.

(** When the outer cylinder does enclose the detector. For a non-empty
    module list it contains every module exactly when no module lies
    farther below the origin than the highest module lies from it; this
    holds in particular when the heights are symmetric about z = 0. *)
Theorem Detector_outer_cylinder_encloses_iff :
  forall mods : list DetModule,
    mods <> [] ->
    exists d,
      Detector_init mods = Ok d
      /\ (Forall (fun m => in_cylinder (snd (outer_cylinder d))
                             (fst (outer_cylinder d)) (pos m)) mods
          <-> exists m_top,
                In m_top mods
                /\ Forall (fun m => - Rabs (vz (pos m_top)) <= vz (pos m)
                                    /\ vz (pos m) <= vz (pos m_top)) mods)
      /\ ((forall m, In m mods ->
             exists m', In m' mods /\ vz (pos m') = - vz (pos m)) ->
          Forall (fun m => in_cylinder (snd (outer_cylinder d))
                             (fst (outer_cylinder d)) (pos m)) mods).
Proof.
  intros mods Hne.
  destruct (Detector_init_maxima mods Hne)
    as [d [m3 [m2 [mz [E [Ed [I3 [I2 [Iz [U3 [U2 Uz]]]]]]]]]]].
  exists d. split; [exact E|]. subst d.
  cbn [outer_cylinder _outer_cylinder fst snd]. unfold in_cylinder.
  rewrite Forall_forall in U2, Uz.
  pose proof (Rle_abs (vz (pos mz))) as Habs.
  split; [split|].
  - intros Hin. exists mz. split; [exact Iz|].
    rewrite Forall_forall in Hin |- *. intros m Hm.
    destruct (Hin m Hm) as [_ Hz]. specialize (Uz m Hm).
    apply Rabs_le_bounds in Hz. lra.
  - intros [m_top [Itop Htop]]. rewrite Forall_forall in Htop |- *.
    assert (Et : vz (pos m_top) = vz (pos mz)).
    { apply Rle_antisym; [apply Uz; exact Itop|apply Htop; exact Iz]. }
    intros m Hm. split; [apply U2; exact Hm|].
    destruct (Htop m Hm) as [Hlo Hhi]. rewrite Et in Hlo, Hhi.
    apply Rabs_le. lra.
  - intros Hsym. apply Forall_forall. intros m Hm.
    split; [apply U2; exact Hm|].
    destruct (Hsym m Hm) as [m' [Hm' Ez]].
    pose proof (Uz m Hm) as Hhi. pose proof (Uz m' Hm') as Hlo.
    rewrite Ez in Hlo. apply Rabs_le. lra.
Qed.

Lemma Detector_outer_cylinder_encloses_iff_witness :
  exists d,
    Detector_init quiet_modules = Ok d
    /\ (Forall (fun m => in_cylinder (snd (outer_cylinder d))
                           (fst (outer_cylinder d)) (pos m)) quiet_modules
        <-> exists m_top,
              In m_top quiet_modules
              /\ Forall (fun m => - Rabs (vz (pos m_top)) <= vz (pos m)
                                  /\ vz (pos m) <= vz (pos m_top))
                   quiet_modules)
    /\ ((forall m, In m quiet_modules ->
           exists m', In m' quiet_modules /\ vz (pos m') = - vz (pos m)) ->
        Forall (fun m => in_cylinder (snd (outer_cylinder d))
                           (fst (outer_cylinder d)) (pos m)) quiet_modules).
Proof.
  apply (Detector_outer_cylinder_encloses_iff quiet_modules).
  unfold quiet_modules. discriminate.
Defined.

(** * Further properties of the geometry builders *)

(** ** Lines *)

Lemma line_modules_vz (x y : R) (zs : list R) :
  forall (i : nat) (gs : list R) (b : R) (line_id : Z) (eff : R),
    length gs = length zs ->
    map (fun m => vz (pos m)) (line_modules x y zs i gs b line_id eff) = zs.
Proof.
  induction zs as [|z zs IH]; intros i gs b line_id eff Hlen;
    destruct gs as [|v gs]; cbn [length] in Hlen; try discriminate;
    [reflexivity|].
  cbn [line_modules map pos vz]. rewrite IH by lia. reflexivity.
Qed.

Lemma line_modules_key (x y : R) (zs : list R) :
  forall (i : nat) (gs : list R) (b : R) (line_id : Z) (eff : R),
    length gs = length zs ->
    map key (line_modules x y zs i gs b line_id eff)
    = map (fun k => (line_id, Z.of_nat k)) (seq i (length zs)).
Proof.
  induction zs as [|z zs IH]; intros i gs b line_id eff Hlen;
    destruct gs as [|v gs]; cbn [length] in Hlen; try discriminate;
    [reflexivity|].
  cbn [line_modules map key length seq]. rewrite IH by lia. reflexivity.
Qed.

Lemma line_modules_efficiency (x y : R) (zs : list R) :
  forall (i : nat) (gs : list R) (b : R) (line_id : Z) (eff : R),
    length gs = length zs ->
    map efficiency (line_modules x y zs i gs b line_id eff)
    = repeat eff (length zs).
Proof.
  induction zs as [|z zs IH]; intros i gs b line_id eff Hlen;
    destruct gs as [|v gs]; cbn [length] in Hlen; try discriminate;
    [reflexivity|].
  cbn [line_modules map efficiency length repeat]. rewrite IH by lia.
  reflexivity.
Qed.

(** Every module of a line carries the line's identifier and sits at the
    line's (x, y). *)
Lemma line_modules_on_line (x y : R) (zs : list R) :
  forall (i : nat) (gs : list R) (b : R) (line_id : Z) (eff : R),
    Forall (fun m => fst (key m) = line_id
                     /\ vx (pos m) = x /\ vy (pos m) = y)
      (line_modules x y zs i gs b line_id eff).
Proof.
  induction zs as [|z zs IH]; intros i gs b line_id eff;
    destruct gs as [|v gs]; cbn [line_modules]; constructor;
    [cbn; auto|apply IH].
Qed.

(** [np.linspace] between [-stop] and [stop]. *)
Lemma np_linspace_sym_nth (start stop : R) (num i : nat) :
  start = - stop -> (2 <= num)%nat -> (i < num)%nat ->
  nth i (np_linspace start stop num) 0
  = stop * (2 * INR i / (INR num - 1) - 1).
Proof.
  intros -> Hn Hi. rewrite np_linspace_affine by exact Hn.
  rewrite nth_map_seq by exact Hi.
  rewrite minus_INR by lia. cbn [INR].
  assert (H2 : INR 2 <= INR num) by (apply le_INR; exact Hn).
  cbn [INR] in H2. field. lra.
Qed.

Lemma linspace_fraction_range (num i : nat) :
  (2 <= num)%nat -> (i < num)%nat ->
  -1 <= 2 * INR i / (INR num - 1) - 1 <= 1.
Proof.
  intros Hn Hi.
  assert (H2 : INR 2 <= INR num) by (apply le_INR; exact Hn).
  cbn [INR] in H2.
  assert (H0 : 0 <= INR i) by apply pos_INR.
  assert (H1 : INR i <= INR num - 1).
  { replace (INR num - 1) with (INR (num - 1))
      by (rewrite minus_INR by lia; cbn [INR]; lra).
    apply le_INR. lia. }
  assert (Hd : 0 < INR num - 1) by lra.
  assert (Hq0 : 0 <= INR i / (INR num - 1))
    by (apply Rmult_le_pos; [exact H0|apply Rlt_le, Rinv_0_lt_compat, Hd]).
  assert (Hq1 : INR i / (INR num - 1) <= 1).
  { apply (Rmult_le_reg_r (INR num - 1)); [exact Hd|].
    unfold Rdiv. rewrite Rmult_assoc, Rinv_l by lra. lra. }
  unfold Rdiv in *. lra.
Qed.

Lemma np_linspace_sym_bound (start stop : R) (num : nat) :
  start = - stop ->
  Forall (fun z => Rabs z <= Rabs stop) (np_linspace start stop num).
Proof.
  intros Hs. destruct (le_lt_dec 2 num) as [H2|H2].
  - apply Forall_forall. intros z Hz.
    destruct (In_nth _ _ 0 Hz) as [i [Hi Ei]].
    rewrite np_linspace_length in Hi.
    rewrite np_linspace_sym_nth in Ei by assumption. subst z.
    rewrite Rabs_mult.
    pose proof (linspace_fraction_range num i H2 Hi) as Hf.
    apply Rabs_le in Hf. pose proof (Rabs_pos stop). nra.
  - destruct num as [|[|k]]; [constructor| |lia].
    unfold np_linspace. cbn [Nat.sub Nat.ltb Nat.leb seq map INR].
    constructor; [|constructor]. subst start.
    replace (0 * (stop - - stop) + - stop) with (- stop) by ring.
    rewrite Rabs_Ropp. lra.
Qed.

Lemma np_linspace_sym_ends (start stop : R) (num : nat) :
  start = - stop -> (1 <= num)%nat ->
  In start (np_linspace start stop num)
  /\ (In stop (np_linspace start stop num)
      \/ Forall (fun z => z = start) (np_linspace start stop num)).
Proof.
  intros Hs H1. destruct (le_lt_dec 2 num) as [H2|H2].
  - assert (Hn : INR 2 <= INR num) by (apply le_INR; exact H2).
    cbn [INR] in Hn.
    assert (E0 : nth 0 (np_linspace start stop num) 0 = start).
    { rewrite np_linspace_sym_nth by (assumption || lia).
      cbn [INR]. subst start. unfold Rdiv. ring. }
    assert (E1 : nth (num - 1) (np_linspace start stop num) 0 = stop).
    { rewrite np_linspace_sym_nth by (assumption || lia).
      rewrite minus_INR by lia. cbn [INR]. field. lra. }
    split; [|left].
    + rewrite <- E0 at 1. apply nth_In. rewrite np_linspace_length. lia.
    + rewrite <- E1 at 1. apply nth_In. rewrite np_linspace_length. lia.
  - destruct num as [|[|k]]; try lia.
    unfold np_linspace. cbn [Nat.sub Nat.ltb Nat.leb seq map INR].
    assert (E : 0 * (stop - start) + start = start) by ring.
    rewrite E. split; [left; reflexivity|right]. repeat constructor.
Qed.

(** A line without modules draws nothing and leaves the generator as it
    was. A line of one module does not sit at the centre of its span:
    [np.linspace] with a single point answers its start, so the module is at
    [z = -dist_z/2]; it consumes one gamma variate. *)
Theorem make_line_short_lines :
  forall (G : Type) (RS : RandomState G) (x y dist_z b eff : R) (line_id : Z)
         (g : G),
    make_line x y 0 dist_z b line_id eff g = Ok ([], g)
    /\ make_line x y 1 dist_z b line_id eff g
       = Ok ([mkModule (mkVec3 x y (- dist_z / 2)) (line_id, 0%Z)
                ((fst (standard_gamma 1 g) + 0.25) * b) eff],
             snd (standard_gamma 1 g)).
Proof.
  intros G RS x y dist_z b eff line_id g. split.
  - rewrite make_line_spec. reflexivity.
  - rewrite make_line_spec. unfold np_linspace.
    cbn [Nat.sub Nat.ltb Nat.leb seq map INR gamma_draws gamma_state
         line_modules Z.of_nat].
    replace (0 * (dist_z * 1 / 2 - - dist_z * 1 / 2) + - dist_z * 1 / 2)
      with (- dist_z / 2) by field.
    replace (fst (standard_gamma 1 g) * 1 + 0.25)
      with (fst (standard_gamma 1 g) + 0.25) by ring.
    reflexivity.
Qed.

(** For two modules or more and any spacing, positive or not, the heights
    of a line are mirrored about z = 0, none lies farther from it than
    [|dist_z| * n_z / 2], and consecutive heights differ by
    [dist_z * n_z / (n_z - 1)]: a negative spacing builds the line from the
    top down, a zero spacing puts every module at z = 0. *)
Theorem make_line_mirrored_heights :
  forall (G : Type) (RS : RandomState G) (x y dist_z b eff : R) (n_z : nat)
         (line_id : Z) (g : G),
    (2 <= n_z)%nat ->
    exists mods g',
      make_line x y n_z dist_z b line_id eff g = Ok (mods, g')
      /\ length mods = n_z
      /\ (forall i, (i < n_z)%nat ->
            nth (n_z - 1 - i) (map (fun m => vz (pos m)) mods) 0
            = - nth i (map (fun m => vz (pos m)) mods) 0)
      /\ Forall (fun m => Rabs (vz (pos m)) <= Rabs dist_z * INR n_z / 2) mods
      /\ (forall i, (S i < n_z)%nat ->
            nth (S i) (map (fun m => vz (pos m)) mods) 0
            - nth i (map (fun m => vz (pos m)) mods) 0
            = dist_z * INR n_z / (INR n_z - 1)).
Proof.
  intros G RS x y dist_z b eff n_z line_id g Hn.
  set (zs := np_linspace (- dist_z * INR n_z / 2) (dist_z * INR n_z / 2) n_z).
  assert (Hzs : length zs = n_z) by apply np_linspace_length.
  assert (Hgs : length (gamma_draws n_z g) = length zs)
    by (rewrite gamma_draws_length, Hzs; reflexivity).
  assert (Hs : - dist_z * INR n_z / 2 = - (dist_z * INR n_z / 2)) by lra.
  assert (H2 : INR 2 <= INR n_z) by (apply le_INR; exact Hn).
  cbn [INR] in H2.
  do 2 eexists. split; [apply make_line_spec|]. fold zs.
  rewrite line_modules_vz by exact Hgs.
  split; [rewrite line_modules_length by exact Hgs; exact Hzs|].
  split; [|split].
  - intros i Hi. unfold zs.
    rewrite !np_linspace_sym_nth by (assumption || lia).
    replace (INR (n_z - 1 - i)) with (INR n_z - 1 - INR i)
      by (rewrite !minus_INR by lia; cbn [INR]; lra).
    field. lra.
  - apply (Forall_map_iff (fun m => vz (pos m))
             (fun z => Rabs z <= Rabs dist_z * INR n_z / 2)).
    rewrite line_modules_vz by exact Hgs.
    eapply Forall_impl; [|apply (np_linspace_sym_bound _ _ n_z Hs)].
    cbn beta. intros z Hz.
    replace (Rabs dist_z * INR n_z / 2) with (Rabs (dist_z * INR n_z / 2));
      [exact Hz|].
    unfold Rdiv. rewrite !Rabs_mult.
    rewrite (Rabs_pos_eq (INR n_z)) by apply pos_INR.
    rewrite (Rabs_pos_eq (/ 2)) by lra. reflexivity.
  - intros i Hi. unfold zs.
    rewrite !np_linspace_sym_nth by (assumption || lia).
    rewrite S_INR. field. lra.
Qed.

Lemma make_line_mirrored_heights_witness :
  exists mods g',
    make_line 1 2 3 (-50) (1 / 10) 0 (1 / 5) 0%nat = Ok (mods, g')
    /\ length mods = 3%nat
    /\ (forall i, (i < 3)%nat ->
          nth (3 - 1 - i) (map (fun m => vz (pos m)) mods) 0
          = - nth i (map (fun m => vz (pos m)) mods) 0)
    /\ Forall (fun m => Rabs (vz (pos m)) <= Rabs (-50) * INR 3 / 2) mods
    /\ (forall i, (S i < 3)%nat ->
          nth (S i) (map (fun m => vz (pos m)) mods) 0
          - nth i (map (fun m => vz (pos m)) mods) 0
          = -50 * INR 3 / (INR 3 - 1)).
Proof.
  apply (make_line_mirrored_heights nat counter_rng 1 2 (-50) (1 / 10) (1 / 5)
           3 0%Z 0%nat).
  lia.
Defined.

(** ** The triangular detector *)

Lemma line_keys_NoDup (line_id : Z) (n : nat) :
  NoDup (map (fun i => (line_id, Z.of_nat i)) (seq 0 n)).
Proof.
  apply NoDup_map_NoDup_ForallPairs; [|apply seq_NoDup].
  intros i j _ _ E. injection E as E. apply Nat2Z.inj. exact E.
Qed.

Lemma line_keys_line (line_id : Z) (n : nat) (k : Z * Z) :
  In k (map (fun i => (line_id, Z.of_nat i)) (seq 0 n)) -> fst k = line_id.
Proof.
  intros Hk. apply in_map_iff in Hk. destruct Hk as [i [<- _]]. reflexivity.
Qed.

Lemma Rabs_max_symmetric (l : list R) (a m : R) :
  Forall (fun z => Rabs z <= Rabs a) l ->
  In (- a) l ->
  In a l \/ Forall (fun z => z = - a) l ->
  Forall (fun z => z <= m) l -> In m l ->
  Rabs m = Rabs a.
Proof.
  intros Hb Hlo Hhi Hub Hin. rewrite Forall_forall in Hb, Hub.
  destruct Hhi as [Hhi|Hall].
  - pose proof (Hub _ Hlo) as H1. pose proof (Hub _ Hhi) as H2.
    pose proof (Hb _ Hin) as H3.
    assert (Ha : Rabs a <= m) by (unfold Rabs; destruct (Rcase_abs a); lra).
    pose proof (Rabs_pos a) as H0.
    rewrite (Rabs_pos_eq m) in * by lra. lra.
  - rewrite Forall_forall in Hall. rewrite (Hall _ Hin). apply Rabs_Ropp.
Qed.

Section Triang.

Context {G : Type} {RS : RandomState G}.

Lemma gamma_state_add (n m : nat) :
  forall g : G, gamma_state (n + m) g = gamma_state m (gamma_state n g).
Proof.
  induction n as [|k IH]; intros g; cbn [Nat.add gamma_state];
    [reflexivity|apply IH].
Qed.

Lemma gamma_draws_add (n m : nat) :
  forall g : G,
    gamma_draws (n + m) g = gamma_draws n g ++ gamma_draws m (gamma_state n g).
Proof.
  induction n as [|k IH]; intros g; cbn [Nat.add gamma_draws gamma_state app];
    [reflexivity|rewrite IH; reflexivity].
Qed.

Variables (side_len : R) (n : nat) (dist_z rate eff : R) (g : G).

(** [make_triang] builds its three lines without raising and hands them
    to the constructor. *)
Lemma make_triang_spec :
  make_triang side_len n dist_z rate eff g
  = lift (Detector_init (triang_modules side_len n dist_z rate eff g))
      (gamma_state (3 * n) g).
Proof.
  unfold make_triang. cbv zeta.
  rewrite (bind_ok _ _ _ _ _ (make_line_spec _ _ _ _ _ _ _ _)).
  rewrite (bind_ok _ _ _ _ _ (make_line_spec _ _ _ _ _ _ _ _)).
  rewrite (bind_ok _ _ _ _ _ (make_line_spec _ _ _ _ _ _ _ _)).
  replace (3 * n)%nat with (n + (n + n))%nat by lia.
  rewrite !gamma_state_add. reflexivity.
Qed.

Lemma triang_draws_length (g0 : G) :
  length (gamma_draws n g0)
  = length (np_linspace (- dist_z * INR n / 2) (dist_z * INR n / 2) n).
Proof. rewrite gamma_draws_length, np_linspace_length. reflexivity. Qed.

Lemma triang_modules_length :
  length (triang_modules side_len n dist_z rate eff g) = (3 * n)%nat.
Proof.
  unfold triang_modules. cbv zeta.
  rewrite !length_app, !line_modules_length by apply triang_draws_length.
  rewrite np_linspace_length. lia.
Qed.

Lemma triang_modules_vz :
  map (fun m => vz (pos m)) (triang_modules side_len n dist_z rate eff g)
  = np_linspace (- dist_z * INR n / 2) (dist_z * INR n / 2) n
    ++ np_linspace (- dist_z * INR n / 2) (dist_z * INR n / 2) n
    ++ np_linspace (- dist_z * INR n / 2) (dist_z * INR n / 2) n.
Proof.
  unfold triang_modules. cbv zeta.
  rewrite !map_app, !line_modules_vz by apply triang_draws_length.
  reflexivity.
Qed.

Lemma triang_modules_key :
  map key (triang_modules side_len n dist_z rate eff g)
  = map (fun i => (0%Z, Z.of_nat i)) (seq 0 n)
    ++ map (fun i => (1%Z, Z.of_nat i)) (seq 0 n)
    ++ map (fun i => (2%Z, Z.of_nat i)) (seq 0 n).
Proof.
  unfold triang_modules. cbv zeta.
  rewrite !map_app, !line_modules_key by apply triang_draws_length.
  rewrite np_linspace_length. reflexivity.
Qed.

Lemma triang_modules_efficiency :
  map efficiency (triang_modules side_len n dist_z rate eff g)
  = repeat eff (3 * n).
Proof.
  unfold triang_modules. cbv zeta.
  rewrite !map_app, !line_modules_efficiency by apply triang_draws_length.
  rewrite np_linspace_length, <- !repeat_app.
  f_equal. lia.
Qed.

Lemma triang_modules_noise_rate :
  map noise_rate (triang_modules side_len n dist_z rate eff g)
  = map (fun v => (v * 1 + 0.25) * rate) (gamma_draws (3 * n) g).
Proof.
  unfold triang_modules. cbv zeta.
  rewrite !map_app, !line_modules_noise_rate by apply triang_draws_length.
  replace (3 * n)%nat with (n + (n + n))%nat by lia.
  rewrite !gamma_draws_add, !map_app. reflexivity.
Qed.

Lemma triang_modules_vertices :
  let height := sqrt (side_len ^ 2 - (side_len / 2) ^ 2) in
  Forall (fun m =>
            (fst (key m) = 0%Z
             /\ vx (pos m) = - side_len / 2 /\ vy (pos m) = - height / 3)
            \/ (fst (key m) = 1%Z
                /\ vx (pos m) = side_len / 2 /\ vy (pos m) = - height / 3)
            \/ (fst (key m) = 2%Z
                /\ vx (pos m) = 0 /\ vy (pos m) = 2 / 3 * height))
    (triang_modules side_len n dist_z rate eff g).
Proof.
  cbv zeta. unfold triang_modules. cbv zeta.
  repeat (apply Forall_app; split);
    (eapply Forall_impl; [|apply line_modules_on_line]);
    cbn beta; intros m Hm; tauto.
Qed.

(** With at least one module per line the constructor succeeds. *)
Lemma make_triang_built :
  (1 <= n)%nat ->
  exists d m_far m_wide m_top,
    let mods := triang_modules side_len n dist_z rate eff g in
    make_triang side_len n dist_z rate eff g = Ok (d, gamma_state (3 * n) g)
    /\ d = mkDetector mods (map pos mods) (map pos mods) (map efficiency mods)
             (map noise_rate mods) (norm3 (pos m_far))
             (norm2 (pos m_wide), 2 * Rabs (vz (pos m_top))) (length mods)
    /\ In m_far mods /\ In m_wide mods /\ In m_top mods
    /\ Forall (fun m => norm3 (pos m) <= norm3 (pos m_far)) mods
    /\ Forall (fun m => norm2 (pos m) <= norm2 (pos m_wide)) mods
    /\ Forall (fun m => vz (pos m) <= vz (pos m_top)) mods.
Proof.
  intros Hn.
  assert (Hne : triang_modules side_len n dist_z rate eff g <> []).
  { intros E. apply (f_equal (@length _)) in E.
    rewrite triang_modules_length in E. cbn [length] in E. lia. }
  destruct (Detector_init_maxima _ Hne)
    as [d [m3 [m2 [mz [E H]]]]].
  exists d, m3, m2, mz. cbv zeta. split; [|exact H].
  rewrite make_triang_spec, E. reflexivity.
Qed.

End Triang.

(** With no module per line the three lines are empty and the constructor
    raises: [make_triang] builds no detector. *)
Theorem make_triang_no_modules_raises :
  forall (G : Type) (RS : RandomState G) (side_len dist_z rate eff : R) (g : G),
    make_triang side_len 0 dist_z rate eff g
    = Raise (ValueError "need at least one array to concatenate").
Proof. intros. rewrite make_triang_spec. reflexivity. Qed.

(** With [n >= 1] modules per line, [make_triang] returns a detector of
    [3 n] modules: lines 0, 1 and 2 in this order, each numbered from 0, so
    that no two modules share a key; every module has the given efficiency;
    the noise rates come from [3 n] successive gamma variates, which is all
    that the generator is advanced by. *)
Theorem make_triang_modules :
  forall (G : Type) (RS : RandomState G) (side_len : R) (n : nat)
         (dist_z rate eff : R) (g : G),
    (1 <= n)%nat ->
    exists d,
      make_triang side_len n dist_z rate eff g = Ok (d, gamma_state (3 * n) g)
      /\ n_modules d = (3 * n)%nat
      /\ map key (modules d)
         = map (fun i => (0%Z, Z.of_nat i)) (seq 0 n)
           ++ map (fun i => (1%Z, Z.of_nat i)) (seq 0 n)
           ++ map (fun i => (2%Z, Z.of_nat i)) (seq 0 n)
      /\ NoDup (map key (modules d))
      /\ module_efficiencies d = repeat eff (3 * n)
      /\ module_noise_rates d
         = map (fun v => (v * 1 + 0.25) * rate) (gamma_draws (3 * n) g).
Proof.
  intros G RS side_len n dist_z rate eff g Hn.
  destruct (make_triang_built side_len n dist_z rate eff g Hn)
    as [d [m3 [m2 [mz H]]]].
  cbv zeta in H. destruct H as [E [Ed _]].
  exists d. split; [exact E|]. subst d.
  cbn [n_modules _n_modules modules module_efficiencies module_noise_rates].
  split; [apply triang_modules_length|].
  split; [apply triang_modules_key|].
  split; [|split; [apply triang_modules_efficiency
                  |apply triang_modules_noise_rate]].
  rewrite triang_modules_key.
  apply NoDup_app; [apply line_keys_NoDup| |].
  - apply NoDup_app; try apply line_keys_NoDup.
    intros k H1 H2. apply line_keys_line in H1, H2.
    rewrite H1 in H2. discriminate H2.
  - intros k H0 H12. apply line_keys_line in H0.
    apply in_app_or in H12. destruct H12 as [H1|H2].
    + apply line_keys_line in H1. rewrite H0 in H1. discriminate H1.
    + apply line_keys_line in H2. rewrite H0 in H2. discriminate H2.
Qed.

Lemma make_triang_modules_witness :
  exists d,
    make_triang 100 2 50 (1 / 10) (1 / 2) 0%nat = Ok (d, gamma_state (3 * 2) 0%nat)
    /\ n_modules d = (3 * 2)%nat
    /\ map key (modules d)
       = map (fun i => (0%Z, Z.of_nat i)) (seq 0 2)
         ++ map (fun i => (1%Z, Z.of_nat i)) (seq 0 2)
         ++ map (fun i => (2%Z, Z.of_nat i)) (seq 0 2)
    /\ NoDup (map key (modules d))
    /\ module_efficiencies d = repeat (1 / 2) (3 * 2)
    /\ module_noise_rates d
       = map (fun v => (v * 1 + 0.25) * (1 / 10)) (gamma_draws (3 * 2) 0%nat).
Proof.
  apply (make_triang_modules nat counter_rng 100 2 50 (1 / 10) (1 / 2) 0%nat).
  lia.
Defined.

Lemma triang_height_sq (side_len : R) :
  sqrt (side_len ^ 2 - (side_len / 2) ^ 2)
  * sqrt (side_len ^ 2 - (side_len / 2) ^ 2)
  = 3 / 4 * (side_len * side_len).
Proof.
  rewrite sqrt_sqrt; [cbn [pow]; field|].
  cbn [pow]. pose proof (Rle_0_sqr side_len) as H. unfold Rsqr in H. lra.
Qed.

Lemma triang_vertex_norm2 (side_len : R) (p : Vec3) :
  vx p * vx p + vy p * vy p = side_len * side_len / 3 ->
  norm2 p = Rabs side_len / sqrt 3.
Proof.
  intros E. unfold norm2, Rsq. rewrite E.
  rewrite sqrt_div_alt by lra.
  change (side_len * side_len) with (Rsqr side_len).
  rewrite sqrt_Rsqr_abs. reflexivity.
Qed.

(** The lines of [make_triang] stand on the corners of an equilateral
    triangle centred on the z-axis: modules of one line share their (x, y),
    modules of two different lines are [|side_len|] apart in the horizontal
    plane, and every module is [|side_len| / sqrt 3] from the axis, which is
    therefore the radius of the outer cylinder. *)
Theorem make_triang_equilateral :
  forall (G : Type) (RS : RandomState G) (side_len : R) (n : nat)
         (dist_z rate eff : R) (g : G),
    (1 <= n)%nat ->
    exists d g',
      make_triang side_len n dist_z rate eff g = Ok (d, g')
      /\ (forall m m', In m (modules d) -> In m' (modules d) ->
            (fst (key m) = fst (key m') ->
             vx (pos m) = vx (pos m') /\ vy (pos m) = vy (pos m'))
            /\ (fst (key m) <> fst (key m') ->
                sqrt (Rsq (vx (pos m) - vx (pos m'))
                      + Rsq (vy (pos m) - vy (pos m')))
                = Rabs side_len))
      /\ Forall (fun m => norm2 (pos m) = Rabs side_len / sqrt 3) (modules d)
      /\ fst (outer_cylinder d) = Rabs side_len / sqrt 3.
Proof.
  intros G RS side_len n dist_z rate eff g Hn.
  destruct (make_triang_built side_len n dist_z rate eff g Hn)
    as [d [m3 [m2 [mz H]]]].
  cbv zeta in H. destruct H as [E [Ed [_ [I2 _]]]].
  exists d, (gamma_state (3 * n) g). split; [exact E|]. subst d.
  cbn [modules outer_cylinder _outer_cylinder fst].
  pose proof (triang_modules_vertices side_len n dist_z rate eff g) as V.
  cbv zeta in V. rewrite Forall_forall in V.
  pose proof (triang_height_sq side_len) as Hh.
  set (h := sqrt (side_len ^ 2 - (side_len / 2) ^ 2)) in *.
  assert (D : forall dx dy,
             dx * dx + dy * dy = side_len * side_len ->
             sqrt (Rsq dx + Rsq dy) = Rabs side_len).
  { intros dx dy Ed. unfold Rsq. rewrite Ed.
    change (side_len * side_len) with (Rsqr side_len).
    apply sqrt_Rsqr_abs. }
  assert (N : forall m,
             In m (triang_modules side_len n dist_z rate eff g) ->
             norm2 (pos m) = Rabs side_len / sqrt 3).
  { intros m Hm. apply triang_vertex_norm2.
    destruct (V m Hm) as [[_ [X Y]]|[[_ [X Y]]|[_ [X Y]]]];
      rewrite X, Y; nra. }
  split; [|split].
  - intros m m' Hm Hm'.
    destruct (V m Hm) as [[K [X Y]]|[[K [X Y]]|[K [X Y]]]];
      destruct (V m' Hm') as [[K' [X' Y']]|[[K' [X' Y']]|[K' [X' Y']]]];
      rewrite K, K', X, X', Y, Y';
      (split;
       [intros Ek; try discriminate Ek; split; reflexivity
       |intros Nk; try (exfalso; apply Nk; reflexivity); apply D; nra]).
  - apply Forall_forall. exact N.
  - apply N. exact I2.
Qed.

Lemma make_triang_equilateral_witness :
  exists d g',
    make_triang 100 2 50 (1 / 10) (1 / 2) 0%nat = Ok (d, g')
    /\ (forall m m', In m (modules d) -> In m' (modules d) ->
          (fst (key m) = fst (key m') ->
           vx (pos m) = vx (pos m') /\ vy (pos m) = vy (pos m'))
          /\ (fst (key m) <> fst (key m') ->
              sqrt (Rsq (vx (pos m) - vx (pos m'))
                    + Rsq (vy (pos m) - vy (pos m')))
              = Rabs 100))
    /\ Forall (fun m => norm2 (pos m) = Rabs 100 / sqrt 3) (modules d)
    /\ fst (outer_cylinder d) = Rabs 100 / sqrt 3.
Proof.
  apply (make_triang_equilateral nat counter_rng 100 2 50 (1 / 10) (1 / 2)
           0%nat).
  lia.
Defined.

Lemma Rabs_half_span (dist_z : R) (n : nat) :
  Rabs (dist_z * INR n / 2) = Rabs dist_z * INR n / 2.
Proof.
  unfold Rdiv. rewrite !Rabs_mult.
  rewrite (Rabs_pos_eq (INR n)) by apply pos_INR.
  rewrite (Rabs_pos_eq (/ 2)) by lra. reflexivity.
Qed.

(** The outer cylinder of a triangular detector does enclose it: the
    heights of [make_line] are mirrored (or, for one module per line, all at
    [-dist_z/2]), so the height of the cylinder is [|dist_z| * n] and every
    module lies within it. The outer radius is the distance of the end
    modules from the origin. *)
Theorem make_triang_outer_cylinder :
  forall (G : Type) (RS : RandomState G) (side_len : R) (n : nat)
         (dist_z rate eff : R) (g : G),
    (1 <= n)%nat ->
    exists d g',
      make_triang side_len n dist_z rate eff g = Ok (d, g')
      /\ snd (outer_cylinder d) = Rabs dist_z * INR n
      /\ Forall (fun m => in_cylinder (snd (outer_cylinder d))
                            (fst (outer_cylinder d)) (pos m)) (modules d)
      /\ outer_radius d
         = sqrt (Rsq side_len / 3 + Rsq (dist_z * INR n / 2)).
Proof.
  intros G RS side_len n dist_z rate eff g Hn.
  destruct (make_triang_built side_len n dist_z rate eff g Hn)
    as [d [m3 [m2 [mz H]]]].
  cbv zeta in H. destruct H as [E [Ed [I3 [I2 [Iz [U3 [U2 Uz]]]]]]].
  exists d, (gamma_state (3 * n) g). split; [exact E|]. subst d.
  cbn [modules outer_cylinder _outer_cylinder outer_radius _outer_radius
       fst snd].
  set (mods := triang_modules side_len n dist_z rate eff g) in *.
  set (a := dist_z * INR n / 2).
  assert (Hs : - dist_z * INR n / 2 = - a) by (unfold a; lra).
  pose proof (np_linspace_sym_bound _ _ n Hs) as Hb.
  destruct (np_linspace_sym_ends _ _ n Hs Hn) as [Hlo Hhi].
  pose proof (triang_modules_vz side_len n dist_z rate eff g) as Hvz.
  fold mods in Hvz. fold a in Hvz, Hb, Hlo, Hhi.
  set (zs := np_linspace (- dist_z * INR n / 2) a n) in *.
  assert (Fb : Forall (fun m => Rabs (vz (pos m)) <= Rabs a) mods).
  { apply (Forall_map_iff (fun m => vz (pos m)) (fun z => Rabs z <= Rabs a)).
    rewrite Hvz. repeat (apply Forall_app; split); exact Hb. }
  assert (Ilo : exists m_lo, In m_lo mods /\ vz (pos m_lo) = - a).
  { assert (Hin : In (- a) (map (fun m => vz (pos m)) mods)).
    { rewrite Hvz. apply in_or_app. left. rewrite <- Hs. exact Hlo. }
    apply in_map_iff in Hin. destruct Hin as [m [Em Im]]. eauto. }
  assert (Etop : Rabs (vz (pos mz)) = Rabs a).
  { apply (Rabs_max_symmetric (map (fun m => vz (pos m)) mods)).
    - apply Forall_map_iff. exact Fb.
    - destruct Ilo as [m [Im Em]]. rewrite <- Em.
      apply (in_map (fun m => vz (pos m))). exact Im.
    - rewrite Hvz. destruct Hhi as [Hhi|Hall].
      + left. apply in_or_app. left. exact Hhi.
      + right. rewrite <- Hs. repeat (apply Forall_app; split); exact Hall.
    - apply Forall_map_iff. exact Uz.
    - apply (in_map (fun m => vz (pos m))). exact Iz. }
  rewrite Forall_forall in Fb, U2, U3.
  split; [|split].
  - rewrite Etop. unfold a. rewrite Rabs_half_span. field.
  - apply Forall_forall. intros m Hm. split; [apply U2; exact Hm|].
    rewrite Etop. pose proof (Fb m Hm). lra.
  - pose proof (triang_modules_vertices side_len n dist_z rate eff g) as V.
    cbv zeta in V. fold mods in V. rewrite Forall_forall in V.
    pose proof (triang_height_sq side_len) as Hh.
    set (h := sqrt (side_len ^ 2 - (side_len / 2) ^ 2)) in *.
    assert (Hxy : forall m, In m mods ->
               Rsq (vx (pos m)) + Rsq (vy (pos m)) = Rsq side_len / 3).
    { intros m Hm. unfold Rsq.
      destruct (V m Hm) as [[_ [X Y]]|[[_ [X Y]]|[_ [X Y]]]];
        rewrite X, Y; nra. }
    assert (Hz : forall m, In m mods -> Rsq (vz (pos m)) <= Rsq a).
    { intros m Hm. apply (Rsqr_le_abs_1 (vz (pos m)) a). apply Fb. exact Hm. }
    apply Rle_antisym.
    + unfold norm3. rewrite (Hxy _ I3). fold a. apply sqrt_le_1_alt.
      pose proof (Hz _ I3). lra.
    + destruct Ilo as [m [Im Em]].
      eapply Rle_trans; [|apply U3; exact Im].
      unfold norm3. rewrite (Hxy _ Im), Em. fold a.
      replace (Rsq (- a)) with (Rsq a) by (unfold Rsq; ring). lra.
Qed.

Lemma make_triang_outer_cylinder_witness :
  exists d g',
    make_triang 100 2 50 (1 / 10) (1 / 2) 0%nat = Ok (d, g')
    /\ snd (outer_cylinder d) = Rabs 50 * INR 2
    /\ Forall (fun m => in_cylinder (snd (outer_cylinder d))
                          (fst (outer_cylinder d)) (pos m)) (modules d)
    /\ outer_radius d = sqrt (Rsq 100 / 3 + Rsq (50 * INR 2 / 2)).
Proof.
  apply (make_triang_outer_cylinder nat counter_rng 100 2 50 (1 / 10) (1 / 2)
           0%nat).
  lia.
Defined.

(** * Further properties of the samplers *)

(** The three full-column assignments leave nothing of the array they
    write into. *)
Lemma set_col_xyz_indep (xs : list R) :
  forall (ys zs : list R) (s s' : list Vec3),
    length s = length s' ->
    set_col set_z zs (set_col set_y ys (set_col set_x xs s))
    = set_col set_z zs (set_col set_y ys (set_col set_x xs s')).
Proof.
  unfold set_col.
  induction xs as [|x xs IH]; intros ys zs s s' Hlen; [reflexivity|].
  destruct s as [|p s]; destruct s' as [|p' s']; cbn [length] in Hlen;
    try discriminate; [reflexivity|].
  cbn [zip_with]. destruct ys as [|y ys]; [reflexivity|].
  cbn [zip_with]. destruct zs as [|z zs]; [reflexivity|].
  cbn [zip_with]. f_equal. apply IH. lia.
Qed.

(** The six masked assignments of [sample_cylinder_surface] leave nothing
    of the array they write into: every row is under the mask or under its
    negation. *)
Lemma scatter_chain_indep (is_top : list bool) :
  forall (s s' : list Vec3) (xt yt zt xs ys zs : list R),
    length s = length is_top -> length s' = length is_top ->
    length xt = count_true is_top ->
    length yt = count_true is_top ->
    length zt = count_true is_top ->
    length xs = count_true (map negb is_top) ->
    length ys = count_true (map negb is_top) ->
    length zs = count_true (map negb is_top) ->
    scatter set_z (map negb is_top) zs
      (scatter set_y (map negb is_top) ys
         (scatter set_x (map negb is_top) xs
            (scatter set_z is_top zt
               (scatter set_y is_top yt (scatter set_x is_top xt s)))))
    = scatter set_z (map negb is_top) zs
        (scatter set_y (map negb is_top) ys
           (scatter set_x (map negb is_top) xs
              (scatter set_z is_top zt
                 (scatter set_y is_top yt (scatter set_x is_top xt s'))))).
Proof.
  induction is_top as [|b mask IH];
    intros s s' xt yt zt xs ys zs Hs Hs' Hxt Hyt Hzt Hxs Hys Hzs;
    destruct s as [|p s]; destruct s' as [|p' s']; cbn [length] in Hs, Hs';
    try discriminate; [reflexivity|].
  cbn [map] in Hxs, Hys, Hzs. rewrite count_true_cons in *.
  destruct b; cbn [negb] in Hxs, Hys, Hzs.
  - destruct xt as [|x xt]; destruct yt as [|y yt]; destruct zt as [|z zt];
      cbn [length] in Hxt, Hyt, Hzt; try discriminate.
    cbn [map negb scatter]. f_equal. apply IH; lia.
  - destruct xs as [|x xs]; destruct ys as [|y ys]; destruct zs as [|z zs];
      cbn [length] in Hxs, Hys, Hzs; try discriminate.
    cbn [map negb scatter]. f_equal. apply IH; lia.
Qed.

Section SamplerDraws.

Context {G : Type} {RS : RandomState G}.

(** Without any assumption on the draws, [rng_choice] from a non-empty
    array returns [size] values. *)
Lemma rng_choice_length (a : list R) (size : nat) :
  a <> [] -> returns (rng_choice a size) (fun l => length l = size).
Proof.
  intros Hne. destruct a as [|a0 a']; [contradiction|].
  unfold rng_choice. intros g.
  destruct (replicateM_returns
              (bind (draw (randint (length (a0 :: a'))))
                 (fun i => ret (nth i (a0 :: a') 0)))
              (fun _ => True)) with (size := size) (g := g)
    as [l [g' [E [Hlen _]]]].
  - intros g0. rewrite bind_draw. do 2 eexists. split; [reflexivity|exact I].
  - exists l, g'. auto.
Qed.

(** The draws of [sample_cylinder_surface], in the order in which they are
    made, and the array it returns when the total area is not zero: the
    cap mask first, the angles, the cap radii, the cap sides, and last the
    heights on the lateral surface. *)
Lemma sample_cylinder_surface_draws (height radius : R) (n : nat) (g : G) :
  2 * PI * radius ^ 2 + 2 * PI * radius * height <> 0 ->
  exists u g1 theta g2 u_r g3 z_top g4 z_side g5,
    let ratio := 2 * PI * radius ^ 2
                 / (2 * PI * radius ^ 2 + 2 * PI * radius * height) in
    let is_top := map (fun v => Rltb v ratio) u in
    let not_top := map negb is_top in
    rng_uniform_size 0 1 n g = Ok (u, g1)
    /\ rng_uniform_size 0 (2 * PI) n g1 = Ok (theta, g2)
    /\ rng_uniform_size 0 1 (count_true is_top) g2 = Ok (u_r, g3)
    /\ rng_choice [- height / 2; height / 2] (count_true is_top) g3
       = Ok (z_top, g4)
    /\ rng_uniform_size (- height / 2) (height / 2) (n - count_true is_top) g4
       = Ok (z_side, g5)
    /\ length u = n /\ length theta = n
    /\ length u_r = count_true is_top
    /\ length z_top = count_true is_top
    /\ length z_side = count_true not_top
    /\ forall uninit,
         sample_cylinder_surface uninit height radius n g
         = Ok (scatter set_z not_top z_side
                 (scatter set_y not_top
                    (map (fun t => radius * cos t) (select not_top theta))
                    (scatter set_x not_top
                       (map (fun t => radius * sin t) (select not_top theta))
                       (scatter set_z is_top z_top
                          (scatter set_y is_top
                             (zip_with Rmult
                                (map (fun v => radius * sqrt v) u_r)
                                (map cos (select is_top theta)))
                             (scatter set_x is_top
                                (zip_with Rmult
                                   (map (fun v => radius * sqrt v) u_r)
                                   (map sin (select is_top theta)))
                                (np_empty uninit n)))))),
               g5).
Proof.
  intros Harea.
  destruct (rng_uniform_size_length 0 1 n g) as [u [g1 [E1 Hu]]].
  set (ratio := 2 * PI * radius ^ 2
                / (2 * PI * radius ^ 2 + 2 * PI * radius * height)).
  set (is_top := map (fun v => Rltb v ratio) u).
  set (not_top := map negb is_top).
  assert (Hmask : length is_top = n)
    by (unfold is_top; rewrite length_map; exact Hu).
  assert (Hnmask : length not_top = n)
    by (unfold not_top; rewrite length_map; exact Hmask).
  destruct (rng_uniform_size_length 0 (2 * PI) n g1) as [theta [g2 [E2 Ht]]].
  destruct (rng_uniform_size_length 0 1 (count_true is_top) g2)
    as [u_r [g3 [E3 Hur]]].
  destruct (rng_choice_length [- height / 2; height / 2] (count_true is_top)
              ltac:(discriminate) g3) as [z_top [g4 [E4 Hzt]]].
  destruct (rng_uniform_size_length (- height / 2) (height / 2)
              (n - count_true is_top) g4) as [z_side [g5 [E5 Hzs]]].
  assert (Hsel : length (select is_top theta) = count_true is_top)
    by (apply select_length; lia).
  assert (Hnsel : length (select not_top theta) = count_true not_top)
    by (apply select_length; lia).
  assert (Hnot : count_true not_top = (n - count_true is_top)%nat)
    by (unfold not_top; rewrite count_true_negb, Hmask; reflexivity).
  exists u, g1, theta, g2, u_r, g3, z_top, g4, z_side, g5. cbv zeta.
  fold ratio. fold is_top. fold not_top.
  repeat (split; [assumption || lia|]).
  intros uninit. unfold sample_cylinder_surface. cbv zeta.
  unfold py_div. destruct (Req_dec_T _ 0) as [Hz|_]; [contradiction|].
  rewrite bind_ret.
  rewrite (bind_ok _ _ _ _ _ E1). fold ratio. fold is_top. fold not_top.
  rewrite (bind_ok _ _ _ _ _ E2), (bind_ok _ _ _ _ _ E3).
  unfold set_masked.
  rewrite !zip_with_length by (rewrite !length_map; lia).
  rewrite !length_map, Hur, Nat.eqb_refl, !bind_ret.
  rewrite (bind_ok _ _ _ _ _ E4).
  rewrite Hzt, Nat.eqb_refl, !bind_ret.
  rewrite Hnsel, Nat.eqb_refl, !bind_ret.
  rewrite (bind_ok _ _ _ _ _ E5).
  rewrite Hzs, Hnot, Nat.eqb_refl, !bind_ret.
  reflexivity.
Qed.

End SamplerDraws.


Lemma Forall2_map_left {A B C} (f : A -> B) (P : B -> C -> Prop) (l : list A) :
  forall l' : list C,
    Forall2 P (map f l) l' -> Forall2 (fun a c => P (f a) c) l l'.
Proof.
  induction l as [|a l IH]; intros l' F; cbn [map] in F; inversion F; subst;
    constructor; [assumption|apply IH; assumption].
Qed.

Lemma surface_area_factors (height radius : R) :
  2 * PI * radius ^ 2 + 2 * PI * radius * height
  = 2 * PI * radius * (radius + height).
Proof. cbn [pow]. ring. Qed.

Lemma surface_area_nonzero (height radius : R) :
  radius <> 0 -> radius + height <> 0 ->
  2 * PI * radius ^ 2 + 2 * PI * radius * height <> 0.
Proof.
  intros Hr Hrh. rewrite surface_area_factors.
  pose proof PI_RGT_0 as Hpi.
  apply Rmult_integral_contrapositive_currified; [|exact Hrh].
  apply Rmult_integral_contrapositive_currified; [lra|exact Hr].
Qed.

(** No sampler lets the content of the freshly allocated array through:
    whatever [np.empty] holds, each of the three samplers does the same,
    because every row is overwritten (all three columns by the two
    full-array samplers; under the mask or under its negation by the
    surface sampler). *)
Theorem samplers_overwrite_every_row :
  forall (G : Type) (RS : RandomState G) (uninit uninit' : nat -> Vec3)
         (height radius : R) (n : nat) (g : G),
    sample_cylinder_volume uninit height radius n g
    = sample_cylinder_volume uninit' height radius n g
    /\ sample_direction uninit n g = sample_direction uninit' n g
    /\ sample_cylinder_surface uninit height radius n g
       = sample_cylinder_surface uninit' height radius n g.
Proof.
  intros G RS uninit uninit' height radius n g.
  assert (He : length (np_empty uninit n) = length (np_empty uninit' n))
    by (rewrite !np_empty_length; reflexivity).
  split; [|split].
  - destruct (rng_uniform_size_length 0 (2 * PI) n g) as [theta [g1 [E1 _]]].
    destruct (rng_uniform_size_length 0 1 n g1) as [u [g2 [E2 _]]].
    destruct (rng_uniform_size_length (- height / 2) (height / 2) n g2)
      as [z [g3 [E3 _]]].
    unfold sample_cylinder_volume. cbv zeta.
    rewrite !(bind_ok _ _ _ _ _ E1), !(bind_ok _ _ _ _ _ E2),
      !(bind_ok _ _ _ _ _ E3).
    unfold ret. do 2 f_equal. apply set_col_xyz_indep. exact He.
  - destruct (rng_uniform_size_length (-1) 1 n g) as [c [g1 [E1 _]]].
    unfold sample_direction. cbv zeta.
    rewrite !(bind_ok _ _ _ _ _ E1). unfold rng_uniform.
    rewrite !bind_draw. unfold ret. do 2 f_equal.
    apply set_col_xyz_indep. exact He.
  - destruct (Req_dec_T (2 * PI * radius ^ 2 + 2 * PI * radius * height) 0)
      as [Hz|Hnz].
    + unfold sample_cylinder_surface, bind, py_div. cbv zeta.
      destruct (Req_dec_T _ 0); [reflexivity|contradiction].
    + destruct (sample_cylinder_surface_draws height radius n g Hnz)
        as [u [g1 [theta [g2 [u_r [g3 [z_top [g4 [z_side [g5 H]]]]]]]]]].
      cbv zeta in H.
      destruct H as [_ [_ [_ [_ [_ [Hu [Ht [Hur [Hzt [Hzs Hrun]]]]]]]]]].
      rewrite (Hrun uninit), (Hrun uninit'). do 2 f_equal.
      assert (Hsel : forall mask : list bool, length mask = n ->
                length (select mask theta) = count_true mask)
        by (intros mask Hm; apply select_length; lia).
      apply scatter_chain_indep;
        rewrite ?np_empty_length, ?zip_with_length, ?length_map;
        rewrite ?length_map, ?Hsel; rewrite ?length_map; auto.
Qed.

(** Asked for no sample, the samplers return the empty array. The volume
    sampler and the surface sampler then leave the generator untouched,
    whereas [sample_direction] still draws its azimuth. *)
Theorem samplers_zero_samples :
  forall (G : Type) (RS : RandomState G) (uninit : nat -> Vec3)
         (height radius : R) (g : G),
    sample_cylinder_volume uninit height radius 0 g = Ok ([], g)
    /\ sample_direction uninit 0 g = Ok ([], snd (uniform 0 (2 * PI) g))
    /\ (radius <> 0 -> radius + height <> 0 ->
        sample_cylinder_surface uninit height radius 0 g = Ok ([], g)).
Proof.
  intros G RS uninit height radius g. split; [reflexivity|]. split.
  - unfold sample_direction. cbn [rng_uniform_size replicateM].
    rewrite bind_ret. unfold rng_uniform. rewrite bind_draw. reflexivity.
  - intros Hr Hrh. pose proof (surface_area_nonzero height radius Hr Hrh) as Ha.
    unfold sample_cylinder_surface. cbv zeta. unfold py_div.
    destruct (Req_dec_T _ 0); [contradiction|]. reflexivity.
Qed.

Lemma samplers_zero_samples_witness :
  sample_cylinder_volume (fun _ => mkVec3 7 7 7) 10 5 0 0%nat = Ok ([], 0%nat)
  /\ sample_direction (fun _ => mkVec3 7 7 7) 0 0%nat
     = Ok ([], snd (uniform 0 (2 * PI) 0%nat))
  /\ sample_cylinder_surface (fun _ => mkVec3 7 7 7) 10 5 0 0%nat
     = Ok ([], 0%nat).
Proof.
  destruct (samplers_zero_samples nat counter_rng (fun _ => mkVec3 7 7 7)
              10 5 0%nat) as [Hv [Hd Hs]].
  split; [exact Hv|]. split; [exact Hd|]. apply Hs; lra.
Defined.



(** Which rows of [sample_cylinder_surface] are cap points is decided by
    its first [n] draws of [uniform(0, 1)], before any angle is drawn: for
    a non-negative height and a positive radius, row [i] lies on a cap when
    draw [i] is below [radius / (radius + height)] (the share of the caps in
    the total area) and on the lateral surface otherwise. *)
Theorem sample_cylinder_surface_caps_follow_draws :
  forall (G : Type) (RS : RandomState G) (L : RandomStateLaws G)
         (uninit : nat -> Vec3) (height radius : R) (n : nat) (g : G),
    0 <= height -> 0 < radius ->
    exists u g1 pts g',
      rng_uniform_size 0 1 n g = Ok (u, g1)
      /\ sample_cylinder_surface uninit height radius n g = Ok (pts, g')
      /\ 0 < radius / (radius + height) <= 1
      /\ Forall2 (fun v p =>
                    (v < radius / (radius + height) ->
                     on_cap height radius p)
                    /\ (~ v < radius / (radius + height) ->
                        on_lateral_surface height radius p))
           u pts.
Proof.
  intros G RS L uninit height radius n g Hh Hr.
  assert (Hrh : 0 < radius + height) by lra.
  pose proof PI_RGT_0 as Hpi.
  assert (Hratio : 2 * PI * radius ^ 2
                   / (2 * PI * radius ^ 2 + 2 * PI * radius * height)
                   = radius / (radius + height)).
  { rewrite surface_area_factors. cbn [pow]. field. repeat split; lra. }
  destruct (sample_cylinder_surface_draws height radius n g
              (surface_area_nonzero height radius ltac:(lra) ltac:(lra)))
    as [u [g1 [theta [g2 [u_r [g3 [z_top [g4 [z_side [g5 H]]]]]]]]]].
  cbv zeta in H. rewrite Hratio in H.
  destruct H as [E1 [E2 [E3 [E4 [E5 [Hu [Ht [Hur [Hzt [Hzs Hrun]]]]]]]]]].
  set (is_top := map (fun v => Rltb v (radius / (radius + height))) u) in *.
  exists u, g1. do 2 eexists.
  split; [exact E1|]. split; [apply Hrun|]. split.
  - split; [apply Rdiv_lt_0_compat; assumption|].
    apply (Rmult_le_reg_r (radius + height)); [exact Hrh|].
    unfold Rdiv. rewrite Rmult_assoc, Rinv_l by lra. lra.
  - destruct (rng_uniform_size_returns 0 1 (count_true is_top) ltac:(lra) g2)
      as [u_r' [g3' [E3' [_ Fur]]]].
    rewrite E3 in E3'. injection E3' as <- <-.
    destruct (rng_choice_returns [- height / 2; height / 2]
                (count_true is_top) ltac:(discriminate) g3)
      as [z_top' [g4' [E4' [_ Fzt]]]].
    rewrite E4 in E4'. injection E4' as <- <-.
    destruct (rng_uniform_size_returns (- height / 2) (height / 2)
                (n - count_true is_top) ltac:(lra) g4)
      as [z_side' [g5' [E5' [_ Fzs]]]].
    rewrite E5 in E5'. injection E5' as <- <-.
    assert (Hmask : length is_top = n)
      by (unfold is_top; rewrite length_map; exact Hu).
    assert (Frs : Forall (fun rr => 0 <= rr <= radius)
                    (map (fun v => radius * sqrt v) u_r)).
    { apply Forall_map_iff. eapply Forall_impl; [|exact Fur].
      cbn beta. intros v Hv. apply disk_radius_range; [lra|exact Hv]. }
    pose proof (surface_rows height radius Hh (Rlt_le _ _ Hr) is_top
                  (np_empty uninit n) theta
                  (map (fun v => radius * sqrt v) u_r) z_top z_side
                  ltac:(rewrite np_empty_length; lia) ltac:(lia)
                  ltac:(rewrite length_map; exact Hur) Hzt Hzs Frs Fzt Fzs)
      as Hrows.
    cbv zeta in Hrows.
    apply (Forall2_map_left
             (fun v => Rltb v (radius / (radius + height)))
             (fun (b : bool) p =>
                if b then on_cap height radius p
                else on_lateral_surface height radius p) u) in Hrows.
    eapply Forall2_impl; [|exact Hrows].
    cbn beta. intros v p Hp. unfold Rltb in Hp.
    destruct (Rlt_dec v (radius / (radius + height)));
      split; intros; (assumption || contradiction).
Qed.

Lemma sample_cylinder_surface_caps_follow_draws_witness :
  exists u g1 pts g',
    rng_uniform_size 0 1 3 0%nat = Ok (u, g1)
    /\ sample_cylinder_surface (fun _ => mkVec3 7 7 7) 10 5 3 0%nat
       = Ok (pts, g')
    /\ 0 < 5 / (5 + 10) <= 1
    /\ Forall2 (fun v p =>
                  (v < 5 / (5 + 10) -> on_cap 10 5 p)
                  /\ (~ v < 5 / (5 + 10) -> on_lateral_surface 10 5 p))
         u pts.
Proof.
  apply (sample_cylinder_surface_caps_follow_draws nat counter_rng
           counter_rng_laws (fun _ => mkVec3 7 7 7) 10 5 3 0%nat); lra.
Defined.

(** The rows written by [sample_cylinder_volume], read against the draws
    they are computed from. *)
Lemma volume_rows_exact (radius : R) :
  forall (samples : list Vec3) (theta us zs : list R),
    length theta = length samples ->
    length us = length samples ->
    length zs = length samples ->
    Forall (fun v => 0 <= v) us ->
    let out :=
      set_col set_z zs
        (set_col set_y
           (zip_with Rmult (map (fun v => radius * sqrt v) us) (map cos theta))
           (set_col set_x
              (zip_with Rmult (map (fun v => radius * sqrt v) us)
                 (map sin theta))
              samples)) in
    map vz out = zs
    /\ Forall2 (fun v p => Rsq (vx p) + Rsq (vy p) = Rsq radius * v) us out
    /\ Forall2 (fun t p => vx p * cos t = vy p * sin t) theta out.
Proof.
  unfold set_col.
  induction samples as [|p samples IH]; intros theta us zs Ht Hu Hz Fu;
    destruct theta as [|t theta]; destruct us as [|v us];
    destruct zs as [|z zs]; cbn [length] in *; try discriminate.
  - cbn. auto.
  - inversion Fu as [|? ? Hv Fu']; subst.
    destruct (IH theta us zs ltac:(lia) ltac:(lia) ltac:(lia) Fu')
      as [Ez [Fr Fa]].
    cbn zeta in Ez, Fr, Fa. cbn [map zip_with]. cbv zeta.
    split; [cbn [map set_z vz]; rewrite Ez; reflexivity|].
    split; (constructor; [|assumption]);
      unfold set_x, set_y, set_z, Rsq; cbn [vx vy vz]; [|ring].
    pose proof (sqrt_sqrt v Hv) as Hs.
    pose proof (sin2_cos2 t) as Hsc. unfold Rsqr in Hsc.
    replace (radius * sqrt v * sin t * (radius * sqrt v * sin t)
             + radius * sqrt v * cos t * (radius * sqrt v * cos t))
      with (radius * radius * (sqrt v * sqrt v)
            * (sin t * sin t + cos t * cos t)) by ring.
    rewrite Hs, Hsc. ring.
Qed.

(** [sample_cylinder_volume] draws [n] angles, then [n] radial variates,
    then [n] heights. Row [i] carries height [i] unchanged, its squared
    distance from the axis is [radius^2] times radial variate [i] (the
    transform that makes the points uniform over the disk), and it points
    along angle [i], measured from the y-axis. *)
Theorem sample_cylinder_volume_radial_transform :
  forall (G : Type) (RS : RandomState G) (L : RandomStateLaws G)
         (uninit : nat -> Vec3) (height radius : R) (n : nat) (g : G),
    exists theta g1 u g2 z g3 pts,
      rng_uniform_size 0 (2 * PI) n g = Ok (theta, g1)
      /\ rng_uniform_size 0 1 n g1 = Ok (u, g2)
      /\ rng_uniform_size (- height / 2) (height / 2) n g2 = Ok (z, g3)
      /\ sample_cylinder_volume uninit height radius n g = Ok (pts, g3)
      /\ map vz pts = z
      /\ Forall2 (fun v p => Rsq (vx p) + Rsq (vy p) = Rsq radius * v) u pts
      /\ Forall2 (fun t p => vx p * cos t = vy p * sin t) theta pts.
Proof.
  intros G RS L uninit height radius n g.
  destruct (rng_uniform_size_length 0 (2 * PI) n g) as [theta [g1 [E1 Ht]]].
  destruct (rng_uniform_size_returns 0 1 n ltac:(lra) g1)
    as [u [g2 [E2 [Hu Fu]]]].
  destruct (rng_uniform_size_length (- height / 2) (height / 2) n g2)
    as [z [g3 [E3 Hz]]].
  exists theta, g1, u, g2, z, g3. eexists.
  split; [exact E1|]. split; [exact E2|]. split; [exact E3|].
  split.
  - unfold sample_cylinder_volume. cbv zeta.
    rewrite (bind_ok _ _ _ _ _ E1), (bind_ok _ _ _ _ _ E2),
      (bind_ok _ _ _ _ _ E3).
    reflexivity.
  - pose proof (np_empty_length uninit n) as He.
    apply (volume_rows_exact radius (np_empty uninit n) theta u z);
      rewrite ?He; try assumption.
    eapply Forall_impl; [|exact Fu]. cbn beta. intros v Hv. lra.
Qed.

Lemma sample_cylinder_volume_radial_transform_witness :
  exists theta g1 u g2 z g3 pts,
    rng_uniform_size 0 (2 * PI) 3 0%nat = Ok (theta, g1)
    /\ rng_uniform_size 0 1 3 g1 = Ok (u, g2)
    /\ rng_uniform_size (- 10 / 2) (10 / 2) 3 g2 = Ok (z, g3)
    /\ sample_cylinder_volume (fun _ => mkVec3 7 7 7) 10 5 3 0%nat
       = Ok (pts, g3)
    /\ map vz pts = z
    /\ Forall2 (fun v p => Rsq (vx p) + Rsq (vy p) = Rsq 5 * v) u pts
    /\ Forall2 (fun t p => vx p * cos t = vy p * sin t) theta pts.
Proof.
  exact (sample_cylinder_volume_radial_transform nat counter_rng
           counter_rng_laws (fun _ => mkVec3 7 7 7) 10 5 3 0%nat).
Defined.

(** * The builders and the noise generator together *)


